(** * The SoS worker pool: [WorkerManager] and [SoS_Worker] nesting stack

    A shallow embedding of [src/sos/workers.py].  The manager is a single
    threaded object whose methods mutate its fields, write replies on the
    backend socket and may raise; it is modelled by a state-and-exception
    monad over a record that has one field per attribute of the Python
    object.  Everything the methods read from outside (the clock, the
    liveness of a process, the readiness signals waiting on the socket,
    the element that [set.pop] picks) is an explicit argument. *)

From stdpp Require Import gmap list.
From Stdlib Require Import ZArith Lia.

Set Warnings "-clear-no-such-hyp".

Local Open Scope Z_scope.

(** ** Data *)

(** A reservation port is a Python [int]. *)
Abbreviation Port := Z (only parsing).

(** [time.time()] readings, counted in milliseconds. *)
Abbreviation Time := Z (only parsing).

Definition five_seconds : Time := 5000.

(** A process handle ([SoS_Worker] object), named by its creation rank. *)
Abbreviation Pid := nat (only parsing).

(** What the manager writes on [_worker_backend_socket]. *)
Inductive Reply (Msg : Type) : Type :=
  | Raw (m : Msg)        (* socket.send(m): a pickled step/workflow request *)
  | PyObj (m : Msg)      (* socket.send_pyobj(m): a substep batch *)
  | EmptyDict            (* socket.send_pyobj({}) *)
  | PyNone.              (* socket.send_pyobj(None): termination sentinel *)
Arguments Raw {Msg} m.
Arguments PyObj {Msg} m.
Arguments EmptyDict {Msg}.
Arguments PyNone {Msg}.

Inductive exn : Type :=
  | KeyError (p : Port)  (* set.remove of an absent element *)
  | ProcessKilled.       (* 'One of the workers has been killed.' *)

Inductive result (A : Type) : Type :=
  | Ok (a : A)
  | Raised (e : exn).
Arguments Ok {A} a.
Arguments Raised {A} e.

(** Python's [list.pop()]: the LAST item and the list without it. *)
Definition list_pop {A} (l : list A) : option (A * list A) :=
  match last l with
  | Some x => Some (x, removelast l)
  | None => None
  end.

(** An admissible behaviour of [set.pop()]: on a set that is not empty
    (the code calls it on no other) it returns some member. *)
Definition pop_ok (pick : gset Z → Z) : Prop :=
  ∀ s, s ≠ ∅ → pick s ∈ s.

(** One such behaviour: the first of the set's elements. *)
Definition pick_first (s : gset Z) : Z := default 0 (head (elements s)).

Section Manager.
Context {Msg : Type}.

(** The attributes of [WorkerManager], then the two things the outside
    observes: the replies written on the backend socket and the number of
    worker processes created so far. *)
Record State : Type := mkState {
  _max_workers : Z;
  _workers : list Pid;
  _num_workers : Z;
  _n_requested : Z;
  _n_processed : Z;
  _worker_alive_time : Time;
  _last_avail_time : Time;
  _substep_requests : list Msg;
  _step_requests : gmap Z Msg;
  _available_ports : gset Z;
  _claimed_ports : gset Z;
  wire : list (Reply Msg);
  spawned : Pid
}.

Definition set_workers (f : list Pid → list Pid) (s : State) : State :=
  mkState (_max_workers s) (f (_workers s)) (_num_workers s) (_n_requested s)
    (_n_processed s) (_worker_alive_time s) (_last_avail_time s)
    (_substep_requests s) (_step_requests s) (_available_ports s)
    (_claimed_ports s) (wire s) (spawned s).

Definition set_num_workers (f : Z → Z) (s : State) : State :=
  mkState (_max_workers s) (_workers s) (f (_num_workers s)) (_n_requested s)
    (_n_processed s) (_worker_alive_time s) (_last_avail_time s)
    (_substep_requests s) (_step_requests s) (_available_ports s)
    (_claimed_ports s) (wire s) (spawned s).

Definition set_n_requested (f : Z → Z) (s : State) : State :=
  mkState (_max_workers s) (_workers s) (_num_workers s) (f (_n_requested s))
    (_n_processed s) (_worker_alive_time s) (_last_avail_time s)
    (_substep_requests s) (_step_requests s) (_available_ports s)
    (_claimed_ports s) (wire s) (spawned s).

Definition set_n_processed (f : Z → Z) (s : State) : State :=
  mkState (_max_workers s) (_workers s) (_num_workers s) (_n_requested s)
    (f (_n_processed s)) (_worker_alive_time s) (_last_avail_time s)
    (_substep_requests s) (_step_requests s) (_available_ports s)
    (_claimed_ports s) (wire s) (spawned s).

Definition set_worker_alive_time (t : Time) (s : State) : State :=
  mkState (_max_workers s) (_workers s) (_num_workers s) (_n_requested s)
    (_n_processed s) t (_last_avail_time s)
    (_substep_requests s) (_step_requests s) (_available_ports s)
    (_claimed_ports s) (wire s) (spawned s).

Definition set_last_avail_time (t : Time) (s : State) : State :=
  mkState (_max_workers s) (_workers s) (_num_workers s) (_n_requested s)
    (_n_processed s) (_worker_alive_time s) t
    (_substep_requests s) (_step_requests s) (_available_ports s)
    (_claimed_ports s) (wire s) (spawned s).

Definition set_substep_requests (f : list Msg → list Msg) (s : State) : State :=
  mkState (_max_workers s) (_workers s) (_num_workers s) (_n_requested s)
    (_n_processed s) (_worker_alive_time s) (_last_avail_time s)
    (f (_substep_requests s)) (_step_requests s) (_available_ports s)
    (_claimed_ports s) (wire s) (spawned s).

Definition set_step_requests (f : gmap Z Msg → gmap Z Msg) (s : State) : State :=
  mkState (_max_workers s) (_workers s) (_num_workers s) (_n_requested s)
    (_n_processed s) (_worker_alive_time s) (_last_avail_time s)
    (_substep_requests s) (f (_step_requests s)) (_available_ports s)
    (_claimed_ports s) (wire s) (spawned s).

Definition set_available_ports (f : gset Z → gset Z) (s : State) : State :=
  mkState (_max_workers s) (_workers s) (_num_workers s) (_n_requested s)
    (_n_processed s) (_worker_alive_time s) (_last_avail_time s)
    (_substep_requests s) (_step_requests s) (f (_available_ports s))
    (_claimed_ports s) (wire s) (spawned s).

Definition set_claimed_ports (f : gset Z → gset Z) (s : State) : State :=
  mkState (_max_workers s) (_workers s) (_num_workers s) (_n_requested s)
    (_n_processed s) (_worker_alive_time s) (_last_avail_time s)
    (_substep_requests s) (_step_requests s) (_available_ports s)
    (f (_claimed_ports s)) (wire s) (spawned s).

Definition set_wire (f : list (Reply Msg) → list (Reply Msg)) (s : State) : State :=
  mkState (_max_workers s) (_workers s) (_num_workers s) (_n_requested s)
    (_n_processed s) (_worker_alive_time s) (_last_avail_time s)
    (_substep_requests s) (_step_requests s) (_available_ports s)
    (_claimed_ports s) (f (wire s)) (spawned s).

Definition set_spawned (f : Pid → Pid) (s : State) : State :=
  mkState (_max_workers s) (_workers s) (_num_workers s) (_n_requested s)
    (_n_processed s) (_worker_alive_time s) (_last_avail_time s)
    (_substep_requests s) (_step_requests s) (_available_ports s)
    (_claimed_ports s) (wire s) (f (spawned s)).

(** ** The monad of manager methods

    A method runs from a state to an outcome and a state: the mutations
    made before an exception is raised stay. *)
Definition M (A : Type) : Type := State → result A * State.

Definition ret {A} (a : A) : M A := λ s, (Ok a, s).

Definition bind {A B} (c : M A) (k : A → M B) : M B :=
  λ s, match c s with
       | (Ok a, s') => k a s'
       | (Raised e, s') => (Raised e, s')
       end.

Definition raise {A} (e : exn) : M A := λ s, (Raised e, s).
Definition gets {A} (f : State → A) : M A := λ s, (Ok (f s), s).
Definition modify (f : State → State) : M unit := λ s, (Ok tt, f s).

#[global] Instance M_ret : MRet M := @ret.
#[global] Instance M_bind : MBind M := λ A B k c, bind c k.

(** The state a method leaves behind, and how it ended. *)
Definition after {A} (c : M A) (s : State) : State := (c s).2.
Definition outcome {A} (c : M A) (s : State) : result A := (c s).1.

Definition send (r : Reply Msg) : M unit := modify (set_wire (λ w, w ++ [r])).

(** ** Methods *)

(** [start]: create a worker process, track it, count it. *)
Definition start : M unit :=
  worker ← gets spawned;
  modify (set_spawned S) ;;
  modify (set_workers (λ ws, ws ++ [worker])) ;;
  modify (set_num_workers (λ n, n + 1)).

(** [__init__]: [t1] and [t2] are its two clock readings. *)
Definition init (max_workers : Z) (t1 t2 : Time) : State :=
  after start (mkState max_workers [] 0 0 0 t1 t2 [] ∅ ∅ ∅ [] O).

Definition add_request (port : option Z) (msg : Msg) : M unit :=
  match port with
  | None => modify (set_substep_requests (λ q, msg :: q))
  | Some p => modify (set_step_requests (λ d, <[p := msg]> d))
  end ;;
  modify (set_n_requested (λ n, n + 1)) ;;
  n_processed ← gets _n_processed;
  available ← gets _available_ports;
  num ← gets _num_workers;
  cap ← gets _max_workers;
  if decide (n_processed > 0 ∧ available = ∅ ∧ num < cap)
  then start
  else ret tt.

Definition worker_available (pick : gset Z → Z) : M (option Z) :=
  available ← gets _available_ports;
  if decide (available ≠ ∅) then
    let claimed := pick available in
    modify (set_available_ports (λ a, a ∖ {[claimed]})) ;;
    modify (set_claimed_ports (λ c, c ∪ {[claimed]})) ;;
    ret (Some claimed)
  else
    num ← gets _num_workers;
    cap ← gets _max_workers;
    (if decide (num < cap) then start else ret tt) ;;
    ret None.

Definition process_request (now : Time) (port : Z) : M unit :=
  requests ← gets _step_requests;
  match requests !! port with
  | Some msg =>
      modify (set_step_requests (λ d, delete port d)) ;;
      send (Raw msg) ;;
      modify (set_last_avail_time now) ;;
      modify (set_n_processed (λ n, n + 1)) ;;
      claimed ← gets _claimed_ports;
      if decide (port ∈ claimed)
      then modify (set_claimed_ports (λ c, c ∖ {[port]}))
      else raise (KeyError port)
  | None =>
      claimed ← gets _claimed_ports;
      if decide (port ∈ claimed)
      then send EmptyDict
      else
        queue ← gets _substep_requests;
        match list_pop queue with
        | Some (msg, rest) =>
            modify (set_substep_requests (λ _, rest)) ;;
            send (PyObj msg) ;;
            modify (set_last_avail_time now) ;;
            modify (set_n_processed (λ n, n + 1)) ;;
            modify (set_available_ports (λ a, a ∖ {[port]}))
        | None =>
            modify (set_available_ports (λ a, a ∪ {[port]})) ;;
            send EmptyDict
        end
  end.

(** The reclamation loop of [check_workers].  [signals] are the ports that
    [poll(100)] and [recv_pyobj] deliver, in order; when they run out the
    poll times out. *)
Fixpoint reclaim (signals : list Z) : M unit :=
  match signals with
  | [] => ret tt
  | port :: rest =>
      num ← gets _num_workers;
      if decide (num > 1) then
        claimed ← gets _claimed_ports;
        if decide (port ∈ claimed) then
          send EmptyDict ;;
          reclaim rest
        else
          modify (set_available_ports (λ a, a ∖ {[port]})) ;;
          send PyNone ;;
          modify (set_num_workers (λ n, n - 1)) ;;
          reclaim rest
      else ret tt
  end.

(** [check_workers]: [t1], [t2], [t3] are its clock readings in program
    order ([t2] is read only inside the first [if]); [is_alive] answers
    [worker.is_alive()]. *)
Definition check_workers (t1 t2 t3 : Time) (is_alive : Pid → bool)
    (signals : list Z) : M unit :=
  alive_time ← gets _worker_alive_time;
  (if decide (t1 - alive_time > five_seconds) then
     modify (set_worker_alive_time t2) ;;
     modify (set_workers (λ ws, filter (λ w, is_alive w = true) ws)) ;;
     ws ← gets _workers;
     num ← gets _num_workers;
     if decide (Z.of_nat (length ws) < num)
     then raise ProcessKilled
     else ret tt
   else ret tt) ;;
  avail_time ← gets _last_avail_time;
  if decide (t3 - avail_time < five_seconds)
  then ret tt
  else reclaim signals.

Fixpoint kill_all (signals : list Z) : M unit :=
  match signals with
  | [] => ret tt
  | _ :: rest =>
      num ← gets _num_workers;
      if decide (num > 0) then
        send PyNone ;;
        modify (set_num_workers (λ n, n - 1)) ;;
        kill_all rest
      else ret tt
  end.

End Manager.

Arguments State Msg : clear implicits.
Arguments M Msg A : clear implicits.

(** ** Histories of the manager

    A call of one public operation together with what the outside
    supplies to it. *)
Inductive Call (Msg : Type) : Type :=
  | call_add_request (port : option Z) (msg : Msg)
  | call_worker_available (pick : gset Z → Z)
  | call_process_request (now : Time) (port : Z)
  | call_check_workers (t1 t2 t3 : Time) (is_alive : Pid → bool)
      (signals : list Z)
  | call_kill_all (signals : list Z).
Arguments call_add_request {Msg} port msg.
Arguments call_worker_available {Msg} pick.
Arguments call_process_request {Msg} now port.
Arguments call_check_workers {Msg} t1 t2 t3 is_alive signals.
Arguments call_kill_all {Msg} signals.

(** The state a call leaves behind, whether it returned or raised. *)
Definition perform {Msg} (c : Call Msg) (s : State Msg) : State Msg :=
  match c with
  | call_add_request port msg => after (add_request port msg) s
  | call_worker_available pick => after (worker_available pick) s
  | call_process_request now port => after (process_request now port) s
  | call_check_workers t1 t2 t3 is_alive signals =>
      after (check_workers t1 t2 t3 is_alive signals) s
  | call_kill_all signals => after (kill_all signals) s
  end.

(** [set.pop] must behave like a [set.pop]. *)
Definition admissible {Msg} (c : Call Msg) : Prop :=
  match c with
  | call_worker_available pick => pop_ok pick
  | _ => True
  end.

(** The pool is active until [kill_all] shuts it down. *)
Definition keeps_active {Msg} (c : Call Msg) : Prop :=
  match c with
  | call_kill_all _ => False
  | _ => admissible c
  end.

(** A call that is not the readiness signal of [port]. *)
Definition not_signal_of {Msg} (port : Z) (c : Call Msg) : Prop :=
  match c with
  | call_process_request _ p => p ≠ port
  | _ => admissible c
  end.

(** The calls by which requests are filed, claimed and fetched; not the
    supervision ([check_workers]) nor the shutdown ([kill_all]). *)
Definition between_checks {Msg} (c : Call Msg) : Prop :=
  match c with
  | call_check_workers _ _ _ _ _ | call_kill_all _ => False
  | _ => True
  end.

(** [reaches allowed s s']: [s'] comes from [s] by allowed calls. *)
Inductive reaches {Msg} (allowed : Call Msg → Prop) (s : State Msg)
    : State Msg → Prop :=
  | reaches_here : reaches allowed s s
  | reaches_call s' c :
      reaches allowed s s' → allowed c → reaches allowed s (perform c s').

(** States of a manager: from the constructor by the five operations. *)
Definition reachable {Msg} (s : State Msg) : Prop :=
  ∃ cap t1 t2, reaches admissible (init cap t1 t2) s.

(** States of an active pool with the given cap. *)
Definition active {Msg} (cap : Z) (s : State Msg) : Prop :=
  ∃ t1 t2, reaches keeps_active (init cap t1 t2) s.

(** The step/workflow requests waiting for [port], read off the dict's
    items. *)
Definition pending {Msg} (s : State Msg) (port : Z) : list Msg :=
  (filter (λ kv, kv.1 = port) (map_to_list (_step_requests s))).*2.

(** A run of [add_request] calls, in order. *)
Fixpoint add_requests {Msg} (calls : list (option Z * Msg)) : M Msg unit :=
  match calls with
  | [] => ret tt
  | (port, msg) :: rest => add_request port msg ;; add_requests rest
  end.

(** A run of readiness signals, each with the clock reading of its
    call. *)
Fixpoint process_requests {Msg} (signals : list (Time * Z)) : M Msg unit :=
  match signals with
  | [] => ret tt
  | (now, port) :: rest => process_request now port ;; process_requests rest
  end.

(** The state after a history of calls, first call first. *)
Definition run_calls {Msg} (calls : list (Call Msg)) (s : State Msg)
    : State Msg :=
  foldl (λ s c, perform c s) s calls.

(** The termination sentinel among the replies. *)
Definition is_sentinel {Msg} (r : Reply Msg) : bool :=
  match r with
  | PyNone => true
  | _ => false
  end.

(** A sample manager, used in the concrete runs below, in which port 5 is claimed and has a request pending. *)
Abbreviation claimed_5_pending_7 :=
  (perform (call_add_request (Some 5) 7%nat)
     (perform (call_worker_available pick_first)
        (perform (call_process_request 0 5) (init (Msg:=nat) 2 0 0)))).

(** A pool of three workers, idle since time 0. *)
Abbreviation three_workers :=
  (perform (call_worker_available pick_first)
     (perform (call_worker_available pick_first) (init (Msg:=nat) 3 0 0))).

(** A manager in which port 5 is available. *)
Abbreviation port_5_available :=
  (perform (call_process_request 0 5) (init (Msg:=nat) 2 0 0)).

(** ** The worker's nesting stack *)
Module Worker.

Abbreviation Socket := nat (only parsing).

(** Python's [l[i]] for a possibly negative [i]; [None] is IndexError. *)
Definition getitem {A} (l : list A) (i : Z) : option A :=
  if decide (0 ≤ i) then l !! Z.to_nat i
  else if decide (- Z.of_nat (length l) ≤ i)
       then l !! Z.to_nat (Z.of_nat (length l) + i)
       else None.

(** The three attributes of [SoS_Worker] behind the stack, and the two
    parts of the process-wide [env] that [push_env] and [pop_env] set.
    [env_master_socket] is [None] before [run] assigns it. *)
Record State : Type := mkState {
  _master_sockets : list Socket;
  _master_ports : list Z;
  _stack_idx : Z;
  env_master_socket : option Socket;
  env_context : Z
}.

Inductive Outcome : Type := Done | IndexError.

(** Modelled from the spec: [env.switch] is defined in sos/utils.py, which
    is not among the sources; the spec describes a single shared current
    execution context swapped per nesting level, so switching records the
    level. *)
Definition env_switch (idx : Z) (w : State) : State :=
  mkState (_master_sockets w) (_master_ports w) (_stack_idx w)
    (env_master_socket w) idx.

Definition set_stack_idx (idx : Z) (w : State) : State :=
  mkState (_master_sockets w) (_master_ports w) idx
    (env_master_socket w) (env_context w).

Definition set_env_master_socket (sock : Socket) (w : State) : State :=
  mkState (_master_sockets w) (_master_ports w) (_stack_idx w)
    (Some sock) (env_context w).

Definition append_socket (sock : Socket) (port : Z) (w : State) : State :=
  mkState (_master_sockets w ++ [sock]) (_master_ports w ++ [port])
    (_stack_idx w) (env_master_socket w) (env_context w).

(** [__init__]. *)
Definition init : State := mkState [] [] 0 None 0.

(** The part of [run] that creates the first master socket; [sock] is
    what [create_socket] returns and [port] what [bind_to_random_port]
    returns. *)
Definition run_setup (sock : Socket) (port : Z) (w : State) : State :=
  append_socket sock port (set_env_master_socket sock w).

Definition push_env (sock : Socket) (port : Z) (w : State)
    : Outcome * State :=
  let w := set_stack_idx (_stack_idx w + 1) w in
  let w := env_switch (_stack_idx w) w in
  if decide (Z.of_nat (length (_master_sockets w)) > _stack_idx w) then
    match getitem (_master_sockets w) (_stack_idx w) with
    | Some current => (Done, set_env_master_socket current w)
    | None => (IndexError, w)
    end
  else
    (Done, append_socket sock port (set_env_master_socket sock w)).

Definition pop_env (w : State) : Outcome * State :=
  let w := set_stack_idx (_stack_idx w - 1) w in
  let w := env_switch (_stack_idx w) w in
  match getitem (_master_sockets w) (_stack_idx w) with
  | Some current => (Done, set_env_master_socket current w)
  | None => (IndexError, w)
  end.

(** The port [_process_job] announces: [_master_ports[_stack_idx]]. *)
Definition active_port (w : State) : option Z :=
  getitem (_master_ports w) (_stack_idx w).

(** [evolves w w']: [w'] comes from [w] by pushes and by pops that undo
    an earlier push, as in [_process_job]. *)
Inductive evolves (w : State) : State → Prop :=
  | evolves_here : evolves w w
  | evolves_push w' sock port :
      evolves w w' → evolves w (push_env sock port w').2
  | evolves_pop w' :
      evolves w w' → 0 < _stack_idx w' → evolves w (pop_env w').2.

(** The states of a running worker. *)
Definition running (w : State) : Prop :=
  ∃ sock port, evolves (run_setup sock port init) w.

(** What holds of a running worker: the level is a valid index of both
    lists, and [env] holds the socket of that level. *)
Definition consistent (w : State) : Prop :=
  0 ≤ _stack_idx w < Z.of_nat (length (_master_sockets w)) ∧
  length (_master_ports w) = length (_master_sockets w) ∧
  env_master_socket w = _master_sockets w !! Z.to_nat (_stack_idx w) ∧
  env_context w = _stack_idx w.

End Worker.

(** ** The worker's job loop

    [_process_job] and the loop of [run], for the jobs that end.  What
    the worker receives decides what it does, so the answers of the
    control socket, the values a step's or workflow's runner yields and
    the results of polling are given as one tree: a job that has to wait
    recursively processes another answer at the next nesting level. *)
Module WorkerLoop.
Import Worker.

Section Loop.
Context {Payload : Type}.

(** [fresh k] is the socket that [create_socket] returns, and the port
    that [bind_to_random_port] returns, when the worker already holds [k]
    master sockets. *)
Context (fresh : nat → Socket * Z).

Inductive Work : Type :=
  | Sentinel                          (* None *)
  | Nothing                           (* {}, or another falsy payload *)
  | Substep (batch : Payload)         (* a dict that is not empty *)
  | Job (is_step : bool) (ys : Yields) (* a tuple: ('step', ...) or not *)
with Yields : Type :=
  | Finished                          (* the runner raises StopIteration *)
  | YieldNone (rest : Yields)         (* the runner yields None *)
  | YieldPoller (polls : Polls) (rest : Yields)
with Polls : Type :=
  | Ready                             (* poller.poll(200) is true *)
  | NotYet (nested : Work) (next : Polls). (* false: serve [nested], retry *)

(** What the worker does that others can see. *)
Inductive Event : Type :=
  | Announce (port : Z)               (* ctrl_socket.send_pyobj(port) *)
  | Sleep                             (* time.sleep(0.1) *)
  | RunSubstep (batch : Payload)      (* run_substep(work) *)
  | Start (is_step : bool)            (* run_step or run_workflow begins *)
  | Close (sock : Socket).            (* close_socket(socket, ...) *)

(** How a call ends: with a return value, or with the IndexError of a
    list subscript. *)
Inductive Ret : Type :=
  | Returned (b : bool)
  | Crashed.

Definition St : Type := State * list Event.

Fixpoint _process_job (work : Work) (st : St) : Ret * St :=
  match active_port st.1 with
  | None => (Crashed, st)
  | Some port =>
      let log := st.2 ++ [Announce port] in
      match work with
      | Sentinel => (Returned false, (st.1, log))
      | Nothing => (Returned true, (st.1, log ++ [Sleep]))
      | Substep batch => (Returned true, (st.1, log ++ [RunSubstep batch]))
      | Job is_step ys => drive ys (st.1, log ++ [Start is_step])
      end
  end
with drive (ys : Yields) (st : St) : Ret * St :=
  match ys with
  | Finished => (Returned true, st)
  | YieldNone rest => drive rest st
  | YieldPoller polls rest =>
      match wait polls st with
      | (Returned _, st') => drive rest st'
      | (Crashed, st') => (Crashed, st')
      end
  end
with wait (polls : Polls) (st : St) : Ret * St :=
  match polls with
  | Ready => (Returned true, st)
  | NotYet nested next =>
      let new := fresh (length (_master_sockets st.1)) in
      match push_env new.1 new.2 st.1 with
      | (IndexError, w1) => (Crashed, (w1, st.2))
      | (Done, w1) =>
          match _process_job nested (w1, st.2) with
          | (Returned _, st2) =>
              match pop_env st2.1 with
              | (IndexError, w3) => (Crashed, (w3, st2.2))
              | (Done, w3) => wait next (w3, st2.2)
              end
          | (Crashed, st2) => (Crashed, st2)
          end
      end
  end.

(** The loop of [run]: one [_process_job] per answer until one returns
    False.  When the answers run out the worker is still waiting. *)
Fixpoint serve (works : list Work) (st : St) : Ret * St :=
  match works with
  | [] => (Returned true, st)
  | work :: rest =>
      match _process_job work st with
      | (Returned true, st') => serve rest st'
      | other => other
      end
  end.

(** [run]: the first master socket, the loop, and after the loop the
    closing of every master socket. *)
Definition run (works : list Work) : Ret * St :=
  let first := fresh 0 in
  match serve works (run_setup first.1 first.2 init, []) with
  | (Returned false, st) =>
      (Returned false, (st.1, st.2 ++ (Close <$> _master_sockets st.1)))
  | other => other
  end.

(** How many nesting levels below its own a job reaches. *)
Fixpoint depth (work : Work) : nat :=
  match work with
  | Job _ ys => depth_yields ys
  | _ => 0
  end
with depth_yields (ys : Yields) : nat :=
  match ys with
  | Finished => 0
  | YieldNone rest => depth_yields rest
  | YieldPoller polls rest => depth_polls polls `max` depth_yields rest
  end
with depth_polls (polls : Polls) : nat :=
  match polls with
  | Ready => 0
  | NotYet nested next => S (depth nested) `max` depth_polls next
  end.

(** [restored d st st']: from [st] to [st'] the nesting level, the active
    master socket and the [env] context are the same, the lists of sockets
    and ports have only grown, to the length that [d] further levels
    need, and the events added close no socket. *)
Definition restored (d : nat) (st st' : St) : Prop :=
  _stack_idx st'.1 = _stack_idx st.1 ∧
  env_master_socket st'.1 = env_master_socket st.1 ∧
  env_context st'.1 = env_context st.1 ∧
  consistent st'.1 ∧
  _master_sockets st.1 `prefix_of` _master_sockets st'.1 ∧
  _master_ports st.1 `prefix_of` _master_ports st'.1 ∧
  length (_master_sockets st'.1)
    = (length (_master_sockets st.1)
       `max` (Z.to_nat (_stack_idx st.1) + 1 + d))%nat ∧
  ∃ new, st'.2 = st.2 ++ new ∧ Forall (λ e, ∀ sock, e ≠ Close sock) new.

(** [announces_from lo w e]: if [e] announces a port, it is the port that
    [w] holds for some nesting level [lo] or deeper. *)
Definition announces_from (lo : nat) (w : State) (e : Event) : Prop :=
  ∀ port, e = Announce port →
    ∃ k, (lo ≤ k)%nat ∧ _master_ports w !! k = Some port.

End Loop.

Arguments Work Payload : clear implicits.
Arguments Yields Payload : clear implicits.
Arguments Polls Payload : clear implicits.
Arguments Event Payload : clear implicits.
Arguments St Payload : clear implicits.
Arguments Sentinel {Payload}.
Arguments Nothing {Payload}.
Arguments Finished {Payload}.
Arguments Ready {Payload}.
Arguments Announce {Payload} port.
Arguments Sleep {Payload}.
Arguments Start {Payload} is_step.
Arguments Close {Payload} sock.

End WorkerLoop.

(** A worker just set up, sockets numbered by level and bound to the
    ports 4000, 4001, ..., and a step that waits once while a substep is
    served one level down. *)
Abbreviation numbered := (λ k : nat, (k, 4000 + Z.of_nat k)).
Abbreviation fresh_worker := (Worker.run_setup 0 4000 Worker.init).
Abbreviation waiting_step :=
  (WorkerLoop.Job true
     (WorkerLoop.YieldPoller
        (WorkerLoop.NotYet (WorkerLoop.Substep 7%nat) WorkerLoop.Ready)
        WorkerLoop.Finished)).

(** * Facts about the manager *)

Lemma list_pop_snoc {A} (rest : list A) (x : A) :
  list_pop (rest ++ [x]) = Some (x, rest).
Proof. unfold list_pop. by rewrite last_snoc, removelast_last. Qed.

Lemma list_pop_None {A} (l : list A) : list_pop l = None ↔ l = [].
Proof.
  split; [|by intros ->].
  destruct l as [|a l _] using rev_ind; [done|].
  by rewrite list_pop_snoc.
Qed.

Lemma pop_ok_pick_first : pop_ok pick_first.
Proof.
  intros s Hs. unfold pick_first.
  destruct (elements s) as [|p l] eqn:E; simpl.
  - destruct Hs. by apply elements_empty_inv in E; apply leibniz_equiv.
  - apply elem_of_elements. rewrite E. left.
Qed.

Ltac run :=
  unfold after, outcome, process_request, add_request, worker_available,
    start, send, mbind, M_bind, bind, gets, modify, ret, raise in *;
  simpl in *.

Section ManagerFacts.
Context {Msg : Type}.
Implicit Types (s : State Msg) (port : Z) (msg : Msg) (now : Time).

(** *** What one [process_request] does, branch by branch *)

Lemma process_request_step now port msg s :
  _step_requests s !! port = Some msg →
  process_request now port s =
    let s' := set_n_processed (λ n, n + 1) (set_last_avail_time now
                (set_wire (λ w, w ++ [Raw msg])
                   (set_step_requests (λ d, delete port d) s))) in
    if decide (port ∈ _claimed_ports s)
    then (Ok tt, set_claimed_ports (λ c, c ∖ {[port]}) s')
    else (Raised (KeyError port), s').
Proof. intros H. run. rewrite H. simpl. by case_decide. Qed.

Lemma process_request_claimed now port s :
  _step_requests s !! port = None → port ∈ _claimed_ports s →
  process_request now port s = (Ok tt, set_wire (λ w, w ++ [EmptyDict]) s).
Proof. intros H Hc. run. rewrite H. simpl. by rewrite decide_True. Qed.

Lemma process_request_substep now port msg rest s :
  _step_requests s !! port = None → port ∉ _claimed_ports s →
  _substep_requests s = rest ++ [msg] →
  process_request now port s =
    (Ok tt, set_available_ports (λ a, a ∖ {[port]})
              (set_n_processed (λ n, n + 1) (set_last_avail_time now
                 (set_wire (λ w, w ++ [PyObj msg])
                    (set_substep_requests (λ _, rest) s))))).
Proof.
  intros H Hc Hq. run. rewrite H. simpl. rewrite decide_False by done.
  by rewrite Hq, list_pop_snoc.
Qed.

Lemma process_request_idle now port s :
  _step_requests s !! port = None → port ∉ _claimed_ports s →
  _substep_requests s = [] →
  process_request now port s =
    (Ok tt, set_wire (λ w, w ++ [EmptyDict])
              (set_available_ports (λ a, a ∪ {[port]}) s)).
Proof.
  intros H Hc Hq. run. rewrite H. simpl. rewrite decide_False by done.
  by rewrite Hq.
Qed.

(** *** What [add_request] and [start] leave alone *)

Lemma start_eq s :
  start s = (Ok tt, set_num_workers (λ n, n + 1)
                      (set_workers (λ ws, ws ++ [spawned s])
                         (set_spawned S s))).
Proof. done. Qed.

Lemma add_request_eq (port : option Z) msg s :
  let s1 := set_n_requested (λ n, n + 1)
              (match port with
               | None => set_substep_requests (λ q, msg :: q) s
               | Some p => set_step_requests (λ d, <[p := msg]> d) s
               end) in
  add_request port msg s =
    if decide (_n_processed s > 0 ∧ _available_ports s = ∅
               ∧ _num_workers s < _max_workers s)
    then start s1 else (Ok tt, s1).
Proof. run. destruct port; simpl; by case_decide. Qed.

Lemma bind_Ok {A B} (c : M Msg A) (k : A → M Msg B) a s s' :
  c s = (Ok a, s') → (c ≫= k) s = k a s'.
Proof. intros H. unfold mbind, M_bind, bind. by rewrite H. Qed.

Lemma add_request_frame (port : option Z) msg s :
  ∃ s', add_request port msg s = (Ok tt, s') ∧
    _substep_requests s' =
      match port with
      | None => msg :: _substep_requests s
      | Some _ => _substep_requests s
      end ∧
    _step_requests s' =
      match port with
      | None => _step_requests s
      | Some p => <[p := msg]> (_step_requests s)
      end ∧
    _available_ports s' = _available_ports s ∧
    _claimed_ports s' = _claimed_ports s ∧
    _n_processed s' = _n_processed s ∧
    wire s' = wire s.
Proof.
  rewrite add_request_eq. simpl. case_decide.
  - rewrite start_eq. eexists. split; [done|]. by destruct port.
  - eexists. split; [done|]. by destruct port.
Qed.

(** C2: [process_request] resolves a readiness signal by the first of
    four rules that applies: deliver the step/workflow request pending for
    this very port (dropping the entry, releasing the claim, counting it,
    stamping the time); else answer a claimed port with the empty payload
    and touch nothing else; else pop and deliver a queued substep
    (counting it, stamping the time, taking the port out of the available
    set); else make the port available and answer with the empty
    payload. *)
Theorem process_request_priority now port s :
  let s' := after (process_request now port) s in
  (∀ msg, _step_requests s !! port = Some msg →
     wire s' = wire s ++ [Raw msg] ∧
     _step_requests s' = delete port (_step_requests s) ∧
     _claimed_ports s' = _claimed_ports s ∖ {[port]} ∧
     _n_processed s' = _n_processed s + 1 ∧
     _last_avail_time s' = now) ∧
  (_step_requests s !! port = None → port ∈ _claimed_ports s →
     s' = set_wire (λ w, w ++ [EmptyDict]) s) ∧
  (∀ msg rest, _step_requests s !! port = None →
     port ∉ _claimed_ports s → _substep_requests s = rest ++ [msg] →
     wire s' = wire s ++ [PyObj msg] ∧
     _substep_requests s' = rest ∧
     _n_processed s' = _n_processed s + 1 ∧
     _last_avail_time s' = now ∧
     _available_ports s' = _available_ports s ∖ {[port]}) ∧
  (_step_requests s !! port = None → port ∉ _claimed_ports s →
     _substep_requests s = [] →
     _available_ports s' = _available_ports s ∪ {[port]} ∧
     wire s' = wire s ++ [EmptyDict]).
Proof.
  unfold after. split; [|split; [|split]].
  - intros msg H. rewrite (process_request_step _ _ _ _ H). simpl.
    destruct (decide (port ∈ _claimed_ports s)); simpl;
      repeat split; try done. set_solver.
  - intros H Hc. by rewrite process_request_claimed.
  - intros msg rest H Hc Hq.
    by rewrite (process_request_substep _ _ msg rest).
  - intros H Hc Hq. by rewrite process_request_idle.
Qed.

(** C9: when a step/workflow request is pending for the port,
    [process_request] sends it and then removes the port from the claimed
    set whatever the state: the call returns normally exactly when the
    port was claimed, and for an unclaimed port it raises KeyError after
    the message was sent, the pending entry popped and the processed
    counter bumped.  Claimed or not, the state left behind is the same:
    the request sent, the entry gone, the counter bumped, the time
    stamped, the port out of the claimed set, nothing else changed. *)
Theorem process_request_unclaimed_raises now port msg s :
  _step_requests s !! port = Some msg →
  let s' := after (process_request now port) s in
  (port ∉ _claimed_ports s') ∧
  (outcome (process_request now port) s = Ok tt ↔ port ∈ _claimed_ports s) ∧
  (port ∉ _claimed_ports s →
     outcome (process_request now port) s = Raised (KeyError port) ∧
     wire s' = wire s ++ [Raw msg] ∧
     _step_requests s' !! port = None ∧
     _n_processed s' = _n_processed s + 1) ∧
  wire s' = wire s ++ [Raw msg] ∧
  _step_requests s' = delete port (_step_requests s) ∧
  _n_processed s' = _n_processed s + 1 ∧
  _last_avail_time s' = now ∧
  _claimed_ports s' = _claimed_ports s ∖ {[port]} ∧
  s' = set_claimed_ports (λ c, c ∖ {[port]})
         (set_n_processed (λ n, n + 1) (set_last_avail_time now
            (set_wire (λ w, w ++ [Raw msg])
               (set_step_requests (λ d, delete port d) s)))).
Proof.
  intros H. unfold after, outcome. rewrite (process_request_step _ _ _ _ H).
  simpl. case_decide as Hc; simpl.
  - split; [set_solver|]. split; [done|]. by repeat split.
  - split; [done|]. split; [split; [done|by intros]|].
    split; [intros _; by rewrite lookup_delete_eq|].
    assert (Hsame : _claimed_ports s ∖ {[port]} = _claimed_ports s)
      by set_solver.
    repeat split; try done.
    unfold set_claimed_ports. simpl. by rewrite Hsame.
Qed.

(** C7, amended: on a port with no pending step/workflow request, not
    claimed, and with no substep queued, [process_request] returns
    normally, puts the port in the available set, answers with the empty
    payload and changes nothing else; calling it again only sends the
    empty payload again. *)
Theorem process_request_marks_available now port s :
  _step_requests s !! port = None → port ∉ _claimed_ports s →
  _substep_requests s = [] →
  let s' := after (process_request now port) s in
  outcome (process_request now port) s = Ok tt ∧
  port ∈ _available_ports s' ∧
  s' = set_wire (λ w, w ++ [EmptyDict])
         (set_available_ports (λ a, a ∪ {[port]}) s) ∧
  ∀ now', after (process_request now' port) s'
          = set_wire (λ w, w ++ [EmptyDict]) s'.
Proof.
  intros H Hc Hq. unfold after, outcome.
  rewrite (process_request_idle _ _ _ H Hc Hq). simpl.
  split; [done|]. split; [set_solver|]. split; [done|].
  intros now'. rewrite process_request_idle by done.
  unfold set_wire, set_available_ports. simpl. f_equal. set_solver.
Qed.

(** C1, amended: substeps are delivered oldest first.  [add_request]
    inserts at the front of the list and [process_request] pops from its
    end, so after submitting S1, S2, S3 with no port to a manager with no
    substep queued, three readiness signals on ports that have no pending
    step request and are not claimed are answered with S1, then S2, then
    S3. *)
Theorem substeps_delivered_oldest_first (S1 S2 S3 : Msg) p1 p2 p3 t1 t2 t3 s :
  _substep_requests s = [] →
  (∀ p, p ∈ [p1; p2; p3] →
     _step_requests s !! p = None ∧ p ∉ _claimed_ports s) →
  let session : M Msg unit :=
    add_request None S1 ;; add_request None S2 ;; add_request None S3 ;;
    process_request t1 p1 ;; process_request t2 p2 ;;
    process_request t3 p3 in
  outcome session s = Ok tt ∧
  wire (after session s) = wire s ++ [PyObj S1; PyObj S2; PyObj S3] ∧
  _substep_requests (after session s) = [].
Proof.
  intros Hq Hp session. unfold session, after, outcome.
  destruct (add_request_frame None S1 s) as (a1 & E1 & Q1 & R1 & _ & C1 & _ & W1).
  destruct (add_request_frame None S2 a1) as (a2 & E2 & Q2 & R2 & _ & C2 & _ & W2).
  destruct (add_request_frame None S3 a2) as (a3 & E3 & Q3 & R3 & _ & C3 & _ & W3).
  rewrite (bind_Ok _ _ _ _ _ E1), (bind_Ok _ _ _ _ _ E2), (bind_Ok _ _ _ _ _ E3).
  assert (Hfree : ∀ p, p ∈ [p1; p2; p3] →
            _step_requests a3 !! p = None ∧ p ∉ _claimed_ports a3).
  { intros p Hin. rewrite R3, R2, R1, C3, C2, C1. by apply Hp. }
  assert (Hq3 : _substep_requests a3 = [S3; S2] ++ [S1]).
  { by rewrite Q3, Q2, Q1, Hq. }
  destruct (Hfree p1) as [F1 G1]; [set_solver|].
  destruct (Hfree p2) as [F2 G2]; [set_solver|].
  destruct (Hfree p3) as [F3 G3]; [set_solver|].
  rewrite (bind_Ok _ _ _ _ _ (process_request_substep t1 p1 S1 _ a3 F1 G1 Hq3)).
  erewrite (bind_Ok (process_request t2 p2));
    [|by apply (process_request_substep t2 p2 S2 [S3])].
  rewrite (process_request_substep t3 p3 S3 []) by done.
  simpl. rewrite W3, W2, W1, <- !app_assoc. done.
Qed.

(** *** One pending step/workflow request per port *)

Lemma filter_key_NoDup {V} (l : list (Z * V)) (p : Z) :
  NoDup l.*1 →
  (∀ v, (p, v) ∈ l → (filter (λ kv, kv.1 = p) l).*2 = [v]) ∧
  ((∀ v, (p, v) ∉ l) → (filter (λ kv, kv.1 = p) l).*2 = []).
Proof.
  induction l as [|[k v] l IH]; intros Hnd.
  - split; [by intros v ?%elem_of_nil|done].
  - rewrite fmap_cons in Hnd. simpl in Hnd.
    apply NoDup_cons in Hnd as [Hk Hnd]. destruct (IH Hnd) as [IH1 IH2].
    destruct (decide (k = p)) as [->|Hne].
    + rewrite filter_cons_True by done. rewrite fmap_cons. simpl.
      assert (Hno : ∀ v', (p, v') ∉ l).
      { intros v' Hin. apply Hk. apply list_elem_of_fmap. by exists (p, v'). }
      rewrite (IH2 Hno). split.
      * intros v' [Heq|Hin]%elem_of_cons; [congruence|by destruct (Hno v')].
      * intros Hnone. destruct (Hnone v). left.
    + rewrite filter_cons_False by done. split.
      * intros v' [Heq|Hin]%elem_of_cons; [congruence|by apply IH1].
      * intros Hnone. apply IH2. intros v' Hin. apply (Hnone v'). by right.
Qed.

Lemma pending_lookup s port :
  pending s port = option_list (_step_requests s !! port).
Proof.
  unfold pending.
  destruct (filter_key_NoDup (map_to_list (_step_requests s)) port)
    as [H1 H2]; [apply NoDup_fst_map_to_list|].
  destruct (_step_requests s !! port) as [m|] eqn:E; simpl.
  - apply H1. by apply elem_of_map_to_list.
  - apply H2. intros v Hin%elem_of_map_to_list. congruence.
Qed.

Lemma add_requests_app (l1 l2 : list (option Z * Msg)) s :
  after (add_requests (l1 ++ l2)) s
  = after (add_requests l2) (after (add_requests l1) s).
Proof.
  revert s. induction l1 as [|[port msg] l1 IH]; intros s; [done|].
  simpl. unfold after in *.
  destruct (add_request_frame port msg s) as (s' & E & _).
  by rewrite !(bind_Ok _ _ _ _ _ E), IH.
Qed.

Lemma add_requests_other (later : list (option Z * Msg)) port s :
  (∀ c, c ∈ later → c.1 ≠ Some port) →
  _step_requests (after (add_requests later) s) !! port
  = _step_requests s !! port.
Proof.
  revert s. induction later as [|[q msg] later IH]; intros s Hl; [done|].
  simpl. unfold after in *.
  destruct (add_request_frame q msg s) as (s' & E & _ & R & _).
  rewrite (bind_Ok _ _ _ _ _ E), IH by (intros c Hc; apply Hl; by right).
  rewrite R. destruct q as [p|]; [|done].
  apply lookup_insert_ne. intros ->. by apply (Hl (Some port, msg)); [left|].
Qed.

(** C3: a port has at most one pending step/workflow request in any
    state; a second [add_request] for a port replaces the first (the dict
    is what it would be had only the second been made), and after any run
    of [add_request] calls the request pending for a port is the one of
    the last call made for it. *)
Theorem one_pending_step_request_per_port :
  (∀ s port, (length (pending s port) ≤ 1)%nat) ∧
  (∀ s port (m1 m2 : Msg),
     let s2 := after (add_request (Some port) m2)
                 (after (add_request (Some port) m1) s) in
     pending s2 port = [m2] ∧
     _step_requests s2 = <[port := m2]> (_step_requests s) ∧
     _substep_requests s2 = _substep_requests s) ∧
  (∀ s port msg (before later : list (option Z * Msg)),
     (∀ c, c ∈ later → c.1 ≠ Some port) →
     pending (after (add_requests (before ++ (Some port, msg) :: later)) s)
       port = [msg]).
Proof.
  split; [|split].
  - intros s port. rewrite pending_lookup.
    destruct (_step_requests s !! port); simpl; lia.
  - intros s port m1 m2 s2. subst s2. unfold after.
    destruct (add_request_frame (Some port) m1 s) as (a1 & E1 & Q1 & R1 & _).
    rewrite E1. simpl.
    destruct (add_request_frame (Some port) m2 a1) as (a2 & E2 & Q2 & R2 & _).
    rewrite E2. simpl. rewrite pending_lookup, R2, R1, Q2, Q1.
    rewrite lookup_insert_eq, insert_insert_eq. done.
  - intros s port msg before later Hl.
    rewrite pending_lookup, add_requests_app. simpl. unfold after at 1.
    destruct (add_request_frame (Some port) msg (after (add_requests before) s))
      as (a1 & E1 & _ & R1 & _).
    rewrite (bind_Ok _ _ _ _ _ E1).
    fold (after (add_requests later) a1).
    rewrite add_requests_other by done.
    by rewrite R1, lookup_insert_eq.
Qed.

(** C5: [worker_available] hands out a port of the available set and
    moves it to the claimed set whenever the available set is not empty;
    otherwise it returns no port and starts exactly one worker if the
    worker count is below [max_workers], none if it is not. *)
Theorem worker_available_claims_or_spawns pick s :
  pop_ok pick →
  let s' := after (worker_available pick) s in
  (_available_ports s ≠ ∅ →
     ∃ p, outcome (worker_available pick) s = Ok (Some p) ∧
       p ∈ _available_ports s ∧
       _available_ports s' = _available_ports s ∖ {[p]} ∧
       _claimed_ports s' = _claimed_ports s ∪ {[p]} ∧
       _num_workers s' = _num_workers s ∧ _workers s' = _workers s ∧
       spawned s' = spawned s ∧
       s' = set_claimed_ports (λ c, c ∪ {[p]})
              (set_available_ports (λ a, a ∖ {[p]}) s)) ∧
  (_available_ports s = ∅ →
     outcome (worker_available pick) s = Ok None ∧
     _available_ports s' = ∅ ∧ _claimed_ports s' = _claimed_ports s ∧
     (_num_workers s < _max_workers s →
        _num_workers s' = _num_workers s + 1 ∧
        _workers s' = _workers s ++ [spawned s] ∧
        spawned s' = S (spawned s) ∧
        s' = set_num_workers (λ n, n + 1)
               (set_workers (λ ws, ws ++ [spawned s]) (set_spawned S s))) ∧
     (¬ _num_workers s < _max_workers s → s' = s)).
Proof.
  intros Hpick. pose proof (Hpick (_available_ports s)) as Hp.
  run. destruct (decide (_available_ports s ≠ ∅)) as [Hne|He]; simpl.
  - split; [|done]. intros _. exists (pick (_available_ports s)).
    by repeat split; [apply Hp|..].
  - apply dec_stable in He. split; [done|]. intros _.
    destruct (decide (_num_workers s < _max_workers s)); simpl.
    + by repeat split.
    + by repeat split.
Qed.

(** *** The liveness check *)

Lemma reclaim_frame (signals : list Z) s :
  ∃ s', reclaim signals s = (Ok tt, s') ∧
    _max_workers s' = _max_workers s ∧
    _claimed_ports s' = _claimed_ports s ∧
    _available_ports s' ⊆ _available_ports s ∧
    (_num_workers s' = _num_workers s
     ∨ 1 < _num_workers s ∧ 1 ≤ _num_workers s' < _num_workers s).
Proof.
  revert s. induction signals as [|port rest IH]; intros s.
  - exists s. by repeat split; [..|left].
  - simpl. run. destruct (decide (_num_workers s > 1)) as [Hn|Hn]; simpl.
    + destruct (decide (port ∈ _claimed_ports s)); simpl.
      * destruct (IH (set_wire (λ w, w ++ [EmptyDict]) s))
          as (s' & -> & ? & ? & ? & ?). by exists s'.
      * destruct (IH (set_num_workers (λ n, n - 1)
                        (set_wire (λ w, w ++ [PyNone])
                           (set_available_ports (λ a, a ∖ {[port]}) s))))
          as (s' & -> & Hm & Hc & Ha & Hw). simpl in *.
        exists s'. repeat split; [done..|set_solver|right; lia].
    + exists s. by repeat split; [..|left].
Qed.

Lemma kill_all_frame (signals : list Z) s :
  ∃ s', kill_all signals s = (Ok tt, s') ∧
    _max_workers s' = _max_workers s ∧
    _claimed_ports s' = _claimed_ports s ∧
    _available_ports s' = _available_ports s.
Proof.
  revert s. induction signals as [|port rest IH]; intros s.
  - by exists s.
  - simpl. run. destruct (decide (_num_workers s > 0)); simpl.
    + destruct (IH (set_num_workers (λ n, n - 1)
                      (set_wire (λ w, w ++ [PyNone]) s)))
        as (s' & -> & ? & ? & ?). by exists s'.
    + by exists s.
Qed.

Lemma check_workers_eq t1 t2 t3 is_alive (signals : list Z) s :
  let idle x := if decide (t3 - _last_avail_time x < five_seconds)
                then (Ok tt, x) else reclaim signals x in
  check_workers t1 t2 t3 is_alive signals s =
    if decide (t1 - _worker_alive_time s > five_seconds) then
      let s1 := set_workers (λ ws, filter (λ w, is_alive w = true) ws)
                  (set_worker_alive_time t2 s) in
      if decide (Z.of_nat (length (_workers s1)) < _num_workers s)
      then (Raised ProcessKilled, s1)
      else idle s1
    else idle s.
Proof.
  unfold check_workers. run.
  destruct (decide (t1 - _worker_alive_time s > five_seconds)); simpl.
  - destruct (decide (_ < _num_workers s)); simpl; [done|].
    by destruct (decide (t3 - _last_avail_time s < five_seconds)).
  - by destruct (decide (t3 - _last_avail_time s < five_seconds)).
Qed.

Lemma check_workers_frame t1 t2 t3 is_alive (signals : list Z) s :
  let s' := after (check_workers t1 t2 t3 is_alive signals) s in
  _max_workers s' = _max_workers s ∧
  _claimed_ports s' = _claimed_ports s ∧
  _available_ports s' ⊆ _available_ports s ∧
  (_num_workers s' = _num_workers s
   ∨ 1 < _num_workers s ∧ 1 ≤ _num_workers s' < _num_workers s).
Proof.
  unfold after. rewrite check_workers_eq. simpl.
  repeat (case_decide; simpl); try by repeat split; [..|left].
  - match goal with |- context [reclaim signals ?x] =>
      destruct (reclaim_frame signals x) as (s' & -> & ? & ? & ? & ?) end.
    done.
  - by destruct (reclaim_frame signals s) as (s' & -> & ? & ? & ? & ?).
Qed.

Lemma filter_length_lt (P : Pid → Prop) `{∀ w, Decision (P w)} (l : list Pid) :
  (length (filter P l) < length l)%nat ↔ ∃ w, w ∈ l ∧ ¬ P w.
Proof.
  induction l as [|a l IH]; simpl.
  - split; [lia|]. by intros (w & ?%elem_of_nil & _).
  - pose proof (length_filter P l) as Hle.
    destruct (decide (P a)) as [Ha|Ha].
    + rewrite filter_cons_True by done. simpl.
      rewrite <- Nat.succ_lt_mono, IH. split.
      * intros (w & Hw & HP). exists w. split; [by right|done].
      * intros (w & [->|Hw]%elem_of_cons & HP); [done|by exists w].
    + rewrite filter_cons_False by done. split; [|lia].
      intros _. exists a. split; [left|done].
Qed.

(** C8, amended: [check_workers] raises ProcessKilled exactly when the
    liveness check is due (more than five seconds since the last one) and
    fewer tracked workers are alive than the manager counts; while every
    counted worker is tracked that is: the check is due and some tracked
    worker is no longer alive.  Nothing else can be raised, and when it is
    raised the call stops there, having only stamped the check time and
    dropped the dead records. *)
Theorem check_workers_raises_iff t1 t2 t3 is_alive (signals : list Z) s :
  let alive := filter (λ w, is_alive w = true) (_workers s) in
  let due := t1 - _worker_alive_time s > five_seconds in
  let call := check_workers t1 t2 t3 is_alive signals in
  (outcome call s = Raised ProcessKilled
   ↔ due ∧ Z.of_nat (length alive) < _num_workers s) ∧
  (outcome call s = Raised ProcessKilled ∨ outcome call s = Ok tt) ∧
  (outcome call s = Raised ProcessKilled →
     after call s = set_workers (λ _, alive) (set_worker_alive_time t2 s)) ∧
  (Z.of_nat (length (_workers s)) = _num_workers s →
     (outcome call s = Raised ProcessKilled
      ↔ due ∧ ∃ w, w ∈ _workers s ∧ is_alive w = false)).
Proof.
  intros alive due call. subst alive due call. unfold after, outcome.
  rewrite check_workers_eq. cbv zeta.
  assert (Hidle : ∀ x : State Msg,
    (if decide (t3 - _last_avail_time x < five_seconds)
     then (Ok tt, x) else reclaim signals x).1 = Ok tt).
  { intros x. case_decide; [done|].
    by destruct (reclaim_frame signals x) as (s' & -> & _). }
  destruct (decide (t1 - _worker_alive_time s > five_seconds)) as [Hdue|Hdue].
  - destruct (decide (Z.of_nat (length (_workers (set_workers
                (λ ws, filter (λ w, is_alive w = true) ws)
                (set_worker_alive_time t2 s)))) < _num_workers s))
      as [Hlt|Hlt]; simpl in Hlt.
    + split; [by split|]. split; [by left|]. split; [done|].
      intros Hall. split; [intros _|done]. split; [done|].
      rewrite <- Hall in Hlt.
      apply Nat2Z.inj_lt, filter_length_lt in Hlt as (w & Hw & Hd).
      exists w. split; [done|]. by destruct (is_alive w).
    + rewrite Hidle. split; [split; [done|by intros [_ ?]]|].
      split; [by right|]. split; [done|].
      intros Hall. split; [done|]. intros [_ (w & Hw & Hd)].
      destruct Hlt. rewrite <- Hall.
      apply Nat2Z.inj_lt, filter_length_lt. exists w. split; [done|].
      by rewrite Hd.
  - rewrite Hidle. split; [split; [done|by intros [? _]]|].
    split; [by right|]. split; [done|].
    intros _. split; [done|by intros [? _]].
Qed.

(** *** What each call does to the port sets and to the worker count *)

Lemma worker_available_eq pick s :
  worker_available pick s =
    if decide (_available_ports s ≠ ∅) then
      let p := pick (_available_ports s) in
      (Ok (Some p), set_claimed_ports (λ c, c ∪ {[p]})
                      (set_available_ports (λ a, a ∖ {[p]}) s))
    else if decide (_num_workers s < _max_workers s)
         then (Ok None, after start s) else (Ok None, s).
Proof.
  run. destruct (decide (_available_ports s ≠ ∅)); [done|]. simpl.
  by destruct (decide (_num_workers s < _max_workers s)).
Qed.

Lemma process_request_frame now port s :
  let s' := after (process_request now port) s in
  _max_workers s' = _max_workers s ∧ _num_workers s' = _num_workers s ∧
  _claimed_ports s' ⊆ _claimed_ports s ∧
  _available_ports s' ⊆ _available_ports s ∪ {[port]} ∧
  (port ∈ _available_ports s' → port ∈ _claimed_ports s' →
   port ∈ _available_ports s).
Proof.
  run. destruct (_step_requests s !! port); simpl.
  - destruct (decide (port ∈ _claimed_ports s)); simpl;
      repeat split; set_solver.
  - destruct (decide (port ∈ _claimed_ports s)); simpl;
      [repeat split; set_solver|].
    destruct (list_pop (_substep_requests s)) as [[msg rest]|]; simpl;
      repeat split; set_solver.
Qed.

Lemma perform_sets (c : Call Msg) s x :
  admissible c →
  x ∈ _available_ports (perform c s) → x ∈ _claimed_ports (perform c s) →
  x ∈ _available_ports s ∧ x ∈ _claimed_ports s.
Proof.
  destruct c as [port msg|pick|now port|t1 t2 t3 is_alive signals|signals];
    simpl; intros Hadm.
  - unfold after. destruct (add_request_frame port msg s)
      as (s' & E & _ & _ & Ea & Ec & _). rewrite E. simpl.
    by rewrite Ea, Ec.
  - unfold after. rewrite worker_available_eq.
    pose proof (Hadm (_available_ports s)) as Hp.
    destruct (decide (_available_ports s ≠ ∅)) as [Hne|He]; simpl;
      [specialize (Hp Hne); set_solver|].
    by destruct (decide (_num_workers s < _max_workers s)).
  - destruct (process_request_frame now port s) as (_ & _ & Hc & Ha & Hp).
    intros Hxa Hxc. split; [|set_solver].
    destruct (decide (x = port)) as [->|Hne]; [by apply Hp|].
    apply Ha in Hxa. set_solver.
  - destruct (check_workers_frame t1 t2 t3 is_alive signals s)
      as (_ & -> & Ha & _). set_solver.
  - unfold after. destruct (kill_all_frame signals s)
      as (s' & E & _ & Ec & Ea). rewrite E. simpl. by rewrite Ea, Ec.
Qed.

Lemma perform_keeps_out port (c : Call Msg) s :
  not_signal_of port c →
  port ∉ _available_ports s → port ∉ _claimed_ports s →
  (port ∉ _available_ports (perform c s)) ∧ port ∉ _claimed_ports (perform c s).
Proof.
  destruct c as [q msg|pick|now q|t1 t2 t3 is_alive signals|signals];
    simpl; intros Hadm Ha Hc.
  - unfold after. destruct (add_request_frame q msg s)
      as (s' & E & _ & _ & Ea & Ec & _). rewrite E. simpl.
    by rewrite Ea, Ec.
  - unfold after. rewrite worker_available_eq.
    pose proof (Hadm (_available_ports s)) as Hp.
    destruct (decide (_available_ports s ≠ ∅)) as [Hne|He]; simpl;
      [specialize (Hp Hne); set_solver|].
    by destruct (decide (_num_workers s < _max_workers s)).
  - destruct (process_request_frame now q s) as (_ & _ & Hc' & Ha' & _).
    set_solver.
  - destruct (check_workers_frame t1 t2 t3 is_alive signals s)
      as (_ & -> & Ha' & _). set_solver.
  - unfold after. destruct (kill_all_frame signals s)
      as (s' & E & _ & Ec & Ea). rewrite E. simpl. by rewrite Ea, Ec.
Qed.

Lemma perform_count (c : Call Msg) s :
  keeps_active c →
  _max_workers (perform c s) = _max_workers s ∧
  (_num_workers (perform c s) = _num_workers s
   ∨ _num_workers s < _max_workers s
     ∧ _num_workers (perform c s) = _num_workers s + 1
   ∨ 1 < _num_workers s
     ∧ 1 ≤ _num_workers (perform c s) < _num_workers s).
Proof.
  destruct c as [port msg|pick|now port|t1 t2 t3 is_alive signals|signals];
    simpl; intros Hadm.
  - unfold after. rewrite add_request_eq. simpl.
    case_decide; simpl; destruct port; simpl; split; try done;
      try (by left); right; left; lia.
  - unfold after. rewrite worker_available_eq.
    destruct (decide (_available_ports s ≠ ∅)); simpl; [by split; [|left]|].
    case_decide; simpl; split; try done; [right; left; lia|by left].
  - destruct (process_request_frame now port s) as (-> & -> & _).
    by split; [|left].
  - destruct (check_workers_frame t1 t2 t3 is_alive signals s)
      as (-> & _ & _ & [->|?]); split; try done; [by left|by right; right].
  - done.
Qed.

Lemma reachable_disjoint s :
  reachable s → _available_ports s ∩ _claimed_ports s = ∅.
Proof.
  intros (cap & t1 & t2 & Hr). induction Hr as [|s' c Hr IH Hc].
  - set_solver.
  - apply set_eq. intros x. split; [|set_solver].
    intros [Hxa Hxc]%elem_of_intersection.
    destruct (perform_sets c s' x Hc Hxa Hxc). set_solver.
Qed.

(** C4, amended: in every state reachable from the constructor by the
    five public operations no port is both available and claimed; and a
    port to which a [process_request] that returned normally has just
    delivered work is in neither set, and stays in neither until its next
    readiness signal. *)
Theorem available_claimed_disjoint s :
  reachable s →
  _available_ports s ∩ _claimed_ports s = ∅ ∧
  ∀ now port msg,
    let s' := after (process_request now port) s in
    outcome (process_request now port) s = Ok tt →
    wire s' = wire s ++ [Raw msg] ∨ wire s' = wire s ++ [PyObj msg] →
    ∀ s'', reaches (not_signal_of port) s' s'' →
      (port ∉ _available_ports s'') ∧ port ∉ _claimed_ports s''.
Proof.
  intros Hr. pose proof (reachable_disjoint s Hr) as Hd.
  split; [done|]. intros now port msg s' Hok Hw s'' Hlater.
  induction Hlater as [|s'' c Hlater [IHa IHc] Hc].
  - subst s'. revert Hok Hw. run.
    destruct (_step_requests s !! port); simpl.
    + destruct (decide (port ∈ _claimed_ports s)); simpl; [|done].
      intros _ _. set_solver.
    + destruct (decide (port ∈ _claimed_ports s)); simpl.
      { intros _ [Hw|Hw]; by apply app_inv_head in Hw. }
      destruct (list_pop (_substep_requests s)) as [[m rest]|]; simpl.
      * intros _ _. set_solver.
      * intros _ [Hw|Hw]; by apply app_inv_head in Hw.
  - by apply perform_keeps_out.
Qed.

(** C6, amended: for [max_workers] at least 1, in every state of an
    active pool (reached from the constructor by [add_request],
    [worker_available], [process_request] and [check_workers]) the worker
    count is at least 1 and at most [max_workers]. *)
Theorem worker_count_bounds cap s :
  1 ≤ cap → active cap s →
  _max_workers s = cap ∧ 1 ≤ _num_workers s ≤ cap.
Proof.
  intros Hcap (t1 & t2 & Hr). induction Hr as [|s' c Hr [IHm IHn] Hc].
  - simpl. lia.
  - destruct (perform_count c s' Hc) as (-> & Hn). lia.
Qed.

End ManagerFacts.

(** * Facts about the worker's nesting stack *)
Module WorkerFacts.
Import Worker.

Lemma getitem_nonneg {A} (l : list A) (i : Z) :
  0 ≤ i → getitem l i = l !! Z.to_nat i.
Proof. intros. unfold getitem. by rewrite decide_True. Qed.

Lemma push_env_prefix sock port w :
  _master_sockets w `prefix_of` _master_sockets (push_env sock port w).2 ∧
  _master_ports w `prefix_of` _master_ports (push_env sock port w).2.
Proof.
  unfold push_env. simpl. case_decide; simpl.
  - by destruct (getitem _ _).
  - split; by apply prefix_app_r.
Qed.

Lemma pop_env_lists w :
  _master_sockets (pop_env w).2 = _master_sockets w ∧
  _master_ports (pop_env w).2 = _master_ports w.
Proof. unfold pop_env. simpl. by destruct (getitem _ _). Qed.

Lemma push_env_consistent sock port w :
  consistent w →
  (push_env sock port w).1 = Done ∧
  consistent (push_env sock port w).2 ∧
  _stack_idx (push_env sock port w).2 = _stack_idx w + 1.
Proof.
  intros ([Hlo Hhi] & Hlen & Hsock & Hctx). unfold push_env. simpl.
  case_decide as Hroom; simpl.
  - rewrite getitem_nonneg by lia.
    destruct (lookup_lt_is_Some_2 (_master_sockets w)
                (Z.to_nat (_stack_idx w + 1))) as [x Hx]; [lia|].
    rewrite Hx. simpl. unfold consistent. simpl.
    repeat split; try done; lia.
  - unfold consistent. repeat split; simpl; try lia.
    + rewrite length_app. change (length [sock]) with 1%nat. lia.
    + by rewrite !length_app, Hlen.
    + replace (Z.to_nat (_stack_idx w + 1))
        with (length (_master_sockets w)) by lia.
      by rewrite list_lookup_middle.
Qed.

Lemma pop_env_consistent w :
  consistent w → 0 < _stack_idx w →
  (pop_env w).1 = Done ∧
  consistent (pop_env w).2 ∧
  _stack_idx (pop_env w).2 = _stack_idx w - 1.
Proof.
  intros ([Hlo Hhi] & Hlen & Hsock & Hctx) Hpos. unfold pop_env. simpl.
  rewrite getitem_nonneg by lia.
  destruct (lookup_lt_is_Some_2 (_master_sockets w)
              (Z.to_nat (_stack_idx w - 1))) as [x Hx]; [lia|].
  rewrite Hx. simpl. unfold consistent. simpl.
  repeat split; try done; lia.
Qed.

Lemma evolves_consistent w w' :
  consistent w → evolves w w' → consistent w'.
Proof.
  intros Hw. induction 1 as [|w' sock port _ IH|w' _ IH Hpos]; [done|..].
  - by apply push_env_consistent.
  - by apply pop_env_consistent.
Qed.

Lemma evolves_prefix w w' :
  evolves w w' →
  _master_sockets w `prefix_of` _master_sockets w' ∧
  _master_ports w `prefix_of` _master_ports w'.
Proof.
  induction 1 as [|w' sock port _ [IHs IHp]|w' _ [IHs IHp] Hpos]; [done|..].
  - destruct (push_env_prefix sock port w'). split; by etrans.
  - destruct (pop_env_lists w') as [-> ->]. done.
Qed.

Lemma running_consistent w : running w → consistent w.
Proof.
  intros (sock & port & Hr). eapply evolves_consistent; [|done].
  unfold consistent. simpl. repeat split; lia.
Qed.

(** C10: in every state of a running worker, [pop_env] right after
    [push_env] brings back the nesting level, the active master socket and
    the active port (and the [env] context); neither call ever shortens
    the per-level socket and port lists; and whenever the worker is later
    at this level again, [push_env] makes active the same socket and port
    as this push did, without creating any. *)
Theorem push_pop_round_trip sock port w :
  running w →
  let pushed := (push_env sock port w).2 in
  let popped := (pop_env pushed).2 in
  (push_env sock port w).1 = Done ∧ (pop_env pushed).1 = Done ∧
  _stack_idx popped = _stack_idx w ∧
  env_master_socket popped = env_master_socket w ∧
  active_port popped = active_port w ∧
  env_context popped = env_context w ∧
  _master_sockets w `prefix_of` _master_sockets pushed ∧
  _master_ports w `prefix_of` _master_ports pushed ∧
  _master_sockets popped = _master_sockets pushed ∧
  _master_ports popped = _master_ports pushed ∧
  ∀ w' sock' port',
    evolves popped w' → _stack_idx w' = _stack_idx w →
    let again := (push_env sock' port' w').2 in
    (push_env sock' port' w').1 = Done ∧
    env_master_socket again = env_master_socket pushed ∧
    active_port again = active_port pushed ∧
    _master_sockets again = _master_sockets w' ∧
    _master_ports again = _master_ports w'.
Proof.
  intros Hrun pushed popped.
  pose proof (running_consistent w Hrun) as Hw.
  pose proof Hw as ([Hlo Hhi] & Hlen & Hsock & Hctx).
  destruct (push_env_consistent sock port w Hw) as (Hdone1 & Hpushed & Hidx1).
  fold pushed in Hdone1, Hpushed, Hidx1.
  destruct (pop_env_consistent pushed Hpushed) as (Hdone2 & Hpopped & Hidx2);
    [lia|]. fold popped in Hdone2, Hpopped, Hidx2.
  destruct (push_env_prefix sock port w) as [Hps Hpp].
  fold pushed in Hps, Hpp.
  destruct (pop_env_lists pushed) as [Hls Hlp]. fold popped in Hls, Hlp.
  assert (Hback : _stack_idx popped = _stack_idx w) by lia.
  destruct (lookup_lt_is_Some_2 (_master_sockets w)
              (Z.to_nat (_stack_idx w))) as [x Hx]; [lia|].
  destruct (lookup_lt_is_Some_2 (_master_ports w)
              (Z.to_nat (_stack_idx w))) as [p Hp]; [lia|].
  repeat (split; [done|]). split; [|split; [|split]].
  - destruct Hpopped as (_ & _ & -> & _).
    rewrite Hback, Hls, Hsock, Hx. by eapply prefix_lookup_Some.
  - unfold active_port. rewrite Hback, Hlp, !getitem_nonneg by lia.
    rewrite Hp. by eapply prefix_lookup_Some.
  - destruct Hpopped as (_ & _ & _ & ->). lia.
  - repeat (split; [done|]).
    intros w' sock' port' Hlater Hsame again.
    pose proof (evolves_consistent _ _ Hpopped Hlater) as Hw'.
    destruct (evolves_prefix _ _ Hlater) as [Hes Hep].
    rewrite Hls in Hes. rewrite Hlp in Hep.
    destruct Hpushed as ([_ Hhi1] & Hlen1 & Hsock1 & _).
    destruct (lookup_lt_is_Some_2 (_master_sockets pushed)
                (Z.to_nat (_stack_idx w + 1))) as [y Hy]; [lia|].
    destruct (lookup_lt_is_Some_2 (_master_ports pushed)
                (Z.to_nat (_stack_idx w + 1))) as [q Hq]; [lia|].
    pose proof (prefix_lookup_Some _ _ _ _ Hy Hes) as Hy'.
    pose proof (prefix_lookup_Some _ _ _ _ Hq Hep) as Hq'.
    pose proof (lookup_lt_Some _ _ _ Hy') as Hroom.
    unfold active_port. rewrite Hsock1, Hidx1.
    rewrite (getitem_nonneg (_master_ports pushed)) by lia.
    subst again. unfold push_env. simpl. rewrite Hsame.
    rewrite decide_True by lia. rewrite getitem_nonneg by lia.
    rewrite Hy'. simpl. rewrite getitem_nonneg by lia.
    by rewrite Hy, Hq, Hq'.
Qed.

End WorkerFacts.

(** * Further facts about the manager *)

Section ManagerMore.
Context {Msg : Type}.
Implicit Types (s : State Msg) (port : Z) (msg : Msg) (now : Time).

Lemma State_ext (s1 s2 : State Msg) :
  _max_workers s1 = _max_workers s2 → _workers s1 = _workers s2 →
  _num_workers s1 = _num_workers s2 → _n_requested s1 = _n_requested s2 →
  _n_processed s1 = _n_processed s2 →
  _worker_alive_time s1 = _worker_alive_time s2 →
  _last_avail_time s1 = _last_avail_time s2 →
  _substep_requests s1 = _substep_requests s2 →
  _step_requests s1 = _step_requests s2 →
  _available_ports s1 = _available_ports s2 →
  _claimed_ports s1 = _claimed_ports s2 →
  wire s1 = wire s2 → spawned s1 = spawned s2 → s1 = s2.
Proof. destruct s1, s2. simpl. by intros; subst. Qed.

(** *** Shutdown *)

Lemma kill_all_cons p (rest : list Z) s :
  kill_all (p :: rest) s =
    if decide (_num_workers s > 0)
    then kill_all rest (set_num_workers (λ n, n - 1)
                          (set_wire (λ w, w ++ [PyNone]) s))
    else (Ok tt, s).
Proof. simpl. run. by destruct (decide (_num_workers s > 0)). Qed.

Lemma reclaim_cons p (rest : list Z) s :
  reclaim (p :: rest) s =
    if decide (_num_workers s > 1) then
      if decide (p ∈ _claimed_ports s)
      then reclaim rest (set_wire (λ w, w ++ [EmptyDict]) s)
      else reclaim rest (set_num_workers (λ n, n - 1)
                           (set_wire (λ w, w ++ [PyNone])
                              (set_available_ports (λ a, a ∖ {[p]}) s)))
    else (Ok tt, s).
Proof.
  simpl. run. destruct (decide (_num_workers s > 1)); [|done]. simpl.
  by destruct (decide (p ∈ _claimed_ports s)).
Qed.

Lemma kill_all_eq (signals : list Z) s :
  kill_all signals s =
    (Ok tt, set_num_workers (λ n, n - Z.of_nat
               (length signals `min` Z.to_nat (_num_workers s))%nat)
              (set_wire (λ w, w ++ replicate
                 (length signals `min` Z.to_nat (_num_workers s))%nat
                 PyNone) s)).
Proof.
  revert s. induction signals as [|p rest IH]; intros s.
  - simpl. unfold ret. f_equal. apply State_ext; simpl; try done; [lia|].
    by rewrite app_nil_r.
  - rewrite kill_all_cons.
    destruct (decide (_num_workers s > 0)) as [Hn|Hn].
    + rewrite IH. f_equal.
      destruct (Z.to_nat (_num_workers s)) as [|n] eqn:En; [lia|].
      replace (Z.to_nat (_num_workers (set_num_workers (λ n, n - 1)
                 (set_wire (λ w, w ++ [PyNone]) s)))) with n
        by (simpl; lia).
      change (length (p :: rest)) with (S (length rest)).
      rewrite <- Nat.succ_min_distr.
      apply State_ext; simpl; try done; [lia|by rewrite <- app_assoc].
    + replace (Z.to_nat (_num_workers s)) with O by lia.
      rewrite Nat.min_0_r. f_equal.
      apply State_ext; simpl; try done; [lia|by rewrite app_nil_r].
Qed.

(** X1: [kill_all] answers one readiness signal per counted worker with the
    termination sentinel, as long as signals arrive: with [k] the smaller
    of the number of signals and the worker count, it sends [k] sentinels,
    lowers the count by [k], touches nothing else and never raises; given
    as many signals as workers the count ends at 0. *)
Theorem kill_all_drains (signals : list Z) s :
  let k := (length signals `min` Z.to_nat (_num_workers s))%nat in
  kill_all signals s =
    (Ok tt, set_num_workers (λ n, n - Z.of_nat k)
              (set_wire (λ w, w ++ replicate k PyNone) s)) ∧
  (0 ≤ _num_workers s ≤ Z.of_nat (length signals) →
   _num_workers (after (kill_all signals) s) = 0).
Proof.
  intros k. split; [apply kill_all_eq|].
  intros Hn. unfold after. rewrite kill_all_eq. simpl. lia.
Qed.

(** *** Idle reclamation *)

Lemma reclaim_unclaimed (signals : list Z) s :
  (∀ p, p ∈ signals → p ∉ _claimed_ports s) →
  let k := (length signals `min` Z.to_nat (_num_workers s - 1))%nat in
  reclaim signals s =
    (Ok tt, set_num_workers (λ n, n - Z.of_nat k)
              (set_wire (λ w, w ++ replicate k PyNone)
                 (set_available_ports
                    (λ a, a ∖ list_to_set (take k signals)) s))).
Proof.
  revert s. induction signals as [|p rest IH]; intros s Hfree.
  - simpl. unfold ret. f_equal.
    apply State_ext; simpl; try done; [lia|set_solver|by rewrite app_nil_r].
  - rewrite reclaim_cons.
    destruct (decide (_num_workers s > 1)) as [Hn|Hn].
    + rewrite decide_False by (apply Hfree; left).
      rewrite IH by (intros q Hq; apply Hfree; by right).
      cbv zeta. f_equal.
      destruct (Z.to_nat (_num_workers s - 1)) as [|n] eqn:En; [lia|].
      replace (Z.to_nat (_num_workers (set_num_workers (λ n, n - 1)
                 (set_wire (λ w, w ++ [PyNone])
                    (set_available_ports (λ a, a ∖ {[p]}) s))) - 1)) with n
        by (simpl; lia).
      change (length (p :: rest)) with (S (length rest)).
      rewrite <- Nat.succ_min_distr.
      apply State_ext; simpl; try done;
        [lia|set_solver|by rewrite <- app_assoc].
    + cbv zeta. replace (Z.to_nat (_num_workers s - 1)) with O by lia.
      rewrite Nat.min_0_r. f_equal.
      apply State_ext; simpl; try done;
        [lia|set_solver|by rewrite app_nil_r].
Qed.

Lemma reclaim_replies (signals : list Z) s :
  ∃ s' replies, reclaim signals s = (Ok tt, s') ∧
    wire s' = wire s ++ replies ∧
    (length replies ≤ length signals)%nat ∧
    Forall (λ r, r = EmptyDict ∨ r = PyNone) replies ∧
    Z.of_nat (length (filter (λ r, is_sentinel r = true) replies))
      = _num_workers s - _num_workers s' ∧
    _step_requests s' = _step_requests s ∧
    _substep_requests s' = _substep_requests s ∧
    _n_requested s' = _n_requested s ∧
    _n_processed s' = _n_processed s ∧
    _claimed_ports s' = _claimed_ports s.
Proof.
  revert s. induction signals as [|p rest IH]; intros s.
  - exists s, []. simpl. rewrite app_nil_r. repeat split; try done; lia.
  - rewrite reclaim_cons.
    destruct (decide (_num_workers s > 1)) as [Hn|Hn].
    + destruct (decide (p ∈ _claimed_ports s)).
      * destruct (IH (set_wire (λ w, w ++ [EmptyDict]) s))
          as (s' & replies & -> & Hw & Hl & Hf & Hc & ? & ? & ? & ? & ?).
        simpl in *. exists s', (EmptyDict :: replies).
        rewrite Hw, <- app_assoc. repeat split; try done.
        -- simpl. lia.
        -- constructor; [by left|done].
      * destruct (IH (set_num_workers (λ n, n - 1)
                        (set_wire (λ w, w ++ [PyNone])
                           (set_available_ports (λ a, a ∖ {[p]}) s))))
          as (s' & replies & -> & Hw & Hl & Hf & Hc & ? & ? & ? & ? & ?).
        simpl in *. exists s', (PyNone :: replies).
        rewrite Hw, <- app_assoc. repeat split; try done.
        -- simpl. lia.
        -- constructor; [by right|done].
        -- rewrite filter_cons_True by done. simpl length. lia.
    + exists s, []. rewrite app_nil_r. repeat split; try done; simpl; lia.
Qed.

(** X2: When no dispatch has succeeded for five seconds and the signalling
    ports are unclaimed, [check_workers] (if the liveness check lets it
    through) retires one worker per signal down to a single worker: the
    count becomes [max 1 (count - signals)], each retired worker is sent
    the sentinel and its port leaves the available set. *)
Theorem check_workers_retires_idle t1 t2 t3 is_alive (signals : list Z) s :
  outcome (check_workers t1 t2 t3 is_alive signals) s = Ok tt →
  ¬ t3 - _last_avail_time s < five_seconds →
  (∀ p, p ∈ signals → p ∉ _claimed_ports s) →
  1 ≤ _num_workers s →
  let s' := after (check_workers t1 t2 t3 is_alive signals) s in
  let k := (length signals `min` Z.to_nat (_num_workers s - 1))%nat in
  _num_workers s' = 1 `max` (_num_workers s - Z.of_nat (length signals)) ∧
  wire s' = wire s ++ replicate k PyNone ∧
  _available_ports s' = _available_ports s ∖ list_to_set (take k signals) ∧
  _claimed_ports s' = _claimed_ports s.
Proof.
  unfold after, outcome. rewrite check_workers_eq. cbv zeta.
  intros Hok Hidle Hfree Hn.
  destruct (decide (t1 - _worker_alive_time s > five_seconds)).
  - destruct (decide (_ < _num_workers s)); [done|].
    rewrite decide_False by done.
    rewrite reclaim_unclaimed by done. simpl. repeat split; try done. lia.
  - rewrite decide_False by done.
    rewrite reclaim_unclaimed by done. simpl. repeat split; try done. lia.
Qed.

Lemma check_workers_accounts t1 t2 t3 is_alive (signals : list Z) s :
  let s' := after (check_workers t1 t2 t3 is_alive signals) s in
  ∃ replies, wire s' = wire s ++ replies ∧
    (length replies ≤ length signals)%nat ∧
    Forall (λ r, r = EmptyDict ∨ r = PyNone) replies ∧
    Z.of_nat (length (filter (λ r, is_sentinel r = true) replies))
      = _num_workers s - _num_workers s' ∧
    (t3 - _last_avail_time s < five_seconds → replies = []) ∧
    _step_requests s' = _step_requests s ∧
    _substep_requests s' = _substep_requests s ∧
    _n_requested s' = _n_requested s ∧
    _n_processed s' = _n_processed s ∧
    _claimed_ports s' = _claimed_ports s.
Proof.
  intros s'. subst s'. unfold after. rewrite check_workers_eq. cbv zeta.
  assert (Hidle : ∀ x : State Msg, wire x = wire s →
    _num_workers x = _num_workers s → _step_requests x = _step_requests s →
    _substep_requests x = _substep_requests s →
    _n_requested x = _n_requested s → _n_processed x = _n_processed s →
    _claimed_ports x = _claimed_ports s →
    _last_avail_time x = _last_avail_time s →
    let y := (if decide (t3 - _last_avail_time x < five_seconds)
              then (Ok tt, x) else reclaim signals x).2 in
    ∃ replies, wire y = wire s ++ replies ∧
      (length replies ≤ length signals)%nat ∧
      Forall (λ r, r = EmptyDict ∨ r = PyNone) replies ∧
      Z.of_nat (length (filter (λ r, is_sentinel r = true) replies))
        = _num_workers s - _num_workers y ∧
      (t3 - _last_avail_time s < five_seconds → replies = []) ∧
      _step_requests y = _step_requests s ∧
      _substep_requests y = _substep_requests s ∧
      _n_requested y = _n_requested s ∧
      _n_processed y = _n_processed s ∧
      _claimed_ports y = _claimed_ports s).
  { intros x Hw Hn Hr Hq Hnr Hnp Hc Hl y. subst y. rewrite Hl.
    destruct (decide (t3 - _last_avail_time s < five_seconds)); simpl.
    - exists []. rewrite app_nil_r. repeat split; try done; simpl; lia.
    - destruct (reclaim_replies signals x)
        as (s' & replies & -> & Hw' & ? & ? & Hc' & ? & ? & ? & ? & ?).
      simpl. exists replies.
      rewrite Hw', Hw. repeat split; try done; congruence. }
  destruct (decide (t1 - _worker_alive_time s > five_seconds)).
  - destruct (decide (_ < _num_workers s)).
    + exists []. rewrite app_nil_r. repeat split; try done; simpl; lia.
    + by apply (Hidle (set_workers _ (set_worker_alive_time t2 s))).
  - by apply (Hidle s).
Qed.

(** X3: Whatever happens, [check_workers] writes on the socket only empty
    payloads and sentinels, at most one per waiting signal and none within
    five seconds of the last dispatch; the sentinels it sends are as many
    as the workers it takes off the count; and it never touches the
    pending requests, the counters of requests or the claimed set. *)
Theorem check_workers_replies t1 t2 t3 is_alive (signals : list Z) s :
  let s' := after (check_workers t1 t2 t3 is_alive signals) s in
  ∃ replies, wire s' = wire s ++ replies ∧
    (length replies ≤ length signals)%nat ∧
    Forall (λ r, r = EmptyDict ∨ r = PyNone) replies ∧
    Z.of_nat (length (filter (λ r, is_sentinel r = true) replies))
      = _num_workers s - _num_workers s' ∧
    (t3 - _last_avail_time s < five_seconds → replies = []) ∧
    _step_requests s' = _step_requests s ∧
    _substep_requests s' = _substep_requests s ∧
    _n_requested s' = _n_requested s ∧
    _n_processed s' = _n_processed s ∧
    _claimed_ports s' = _claimed_ports s.
Proof. apply check_workers_accounts. Qed.

(** *** Requests in, requests out *)

Lemma list_pop_Some {A} (l rest : list A) (x : A) :
  list_pop l = Some (x, rest) → l = rest ++ [x].
Proof.
  destruct l as [|a l _] using rev_ind; [done|].
  rewrite list_pop_snoc. by intros [= -> ->].
Qed.

(** The calls that neither file nor deliver a request. *)
Lemma perform_quiet (c : Call Msg) s :
  match c with
  | call_add_request _ _ | call_process_request _ _ => True
  | _ =>
      _step_requests (perform c s) = _step_requests s ∧
      _substep_requests (perform c s) = _substep_requests s ∧
      _n_requested (perform c s) = _n_requested s ∧
      _n_processed (perform c s) = _n_processed s ∧
      ∃ replies, wire (perform c s) = wire s ++ replies ∧
        Forall (λ r, r = EmptyDict ∨ r = PyNone) replies
  end.
Proof.
  destruct c as [port msg|pick|now port|t1 t2 t3 is_alive signals|signals];
    try done; simpl.
  - unfold after. rewrite worker_available_eq.
    destruct (decide (_available_ports s ≠ ∅)); simpl.
    + repeat split; try done. exists []. by rewrite app_nil_r.
    + destruct (decide (_num_workers s < _max_workers s)); simpl;
        repeat split; try done; exists []; by rewrite app_nil_r.
  - destruct (check_workers_accounts t1 t2 t3 is_alive signals s)
      as (replies & ? & ? & ? & ? & ? & ? & ? & ? & ? & ?).
    repeat split; try done. by exists replies.
  - unfold after. rewrite kill_all_eq. simpl. repeat split; try done.
    eexists. split; [done|]. apply Forall_replicate. by right.
Qed.

Lemma perform_backlog (c : Call Msg) s :
  _n_processed s ≤ _n_processed (perform c s) ∧
  _n_processed (perform c s)
    + Z.of_nat (length (_substep_requests (perform c s)))
    + Z.of_nat (size (_step_requests (perform c s)))
    - _n_requested (perform c s)
  ≤ _n_processed s + Z.of_nat (length (_substep_requests s))
    + Z.of_nat (size (_step_requests s)) - _n_requested s.
Proof.
  pose proof (perform_quiet c s) as Hq.
  destruct c as [port msg|pick|now port|t1 t2 t3 is_alive signals|signals];
    try (destruct Hq as (-> & -> & -> & -> & _); lia); clear Hq; simpl.
  - unfold after. rewrite add_request_eq. simpl.
    assert (Hsize : ∀ p : Z, (size (<[p := msg]> (_step_requests s))
                              ≤ S (size (_step_requests s)))%nat).
    { intros p. rewrite map_size_insert. destruct (_ !! _); simpl; lia. }
    case_decide; destruct port as [p|]; simpl;
      try specialize (Hsize p); lia.
  - run. destruct (_step_requests s !! port) eqn:E; simpl.
    + assert (size (_step_requests s) ≠ 0%nat)
        by (by eapply map_size_ne_0_lookup_2).
      assert (size (delete port (_step_requests s))
              = pred (size (_step_requests s))) by (by rewrite map_size_delete, E).
      destruct (decide (port ∈ _claimed_ports s)); simpl; lia.
    + destruct (decide (port ∈ _claimed_ports s)); simpl; [lia|].
      destruct (list_pop (_substep_requests s)) as [[m rest]|] eqn:Ep; simpl;
        [|lia].
      apply list_pop_Some in Ep. rewrite Ep, length_app. simpl. lia.
Qed.

(** X4: In every reachable state the requests delivered, those waiting in the
    substep queue and those pending for a port together are no more than
    the requests submitted: the manager never delivers what was not
    asked for, and [processed] never overtakes [requested]. *)
Theorem backlog_bounded s :
  reachable s →
  0 ≤ _n_processed s ∧
  _n_processed s + Z.of_nat (length (_substep_requests s))
    + Z.of_nat (size (_step_requests s)) ≤ _n_requested s.
Proof.
  intros (cap & t1 & t2 & Hr). induction Hr as [|s' c Hr [IH1 IH2] Hc].
  - simpl. rewrite map_size_empty. lia.
  - destruct (perform_backlog c s'). lia.
Qed.

(** X5: Every request payload the manager ever writes on the socket was
    submitted before: a substep batch by an [add_request] without port,
    a step/workflow request by an [add_request] with a port. *)
Theorem delivered_was_submitted (calls : list (Call Msg)) cap t1 t2 :
  let s := run_calls calls (init cap t1 t2) in
  (∀ m, PyObj m ∈ wire s → call_add_request None m ∈ calls) ∧
  (∀ m, Raw m ∈ wire s → ∃ p, call_add_request (Some p) m ∈ calls).
Proof.
  intros s. subst s.
  cut (let s := run_calls calls (init cap t1 t2) in
       (∀ m, m ∈ _substep_requests s → call_add_request None m ∈ calls) ∧
       (∀ p m, _step_requests s !! p = Some m →
          call_add_request (Some p) m ∈ calls) ∧
       (∀ m, PyObj m ∈ wire s → call_add_request None m ∈ calls) ∧
       (∀ m, Raw m ∈ wire s → ∃ p, call_add_request (Some p) m ∈ calls)).
  { intros (_ & _ & H3 & H4). by split. }
  induction calls as [|c calls IH] using rev_ind.
  - simpl. repeat split.
    + by intros m ?%elem_of_nil.
    + intros p m. by rewrite lookup_empty.
    + by intros m ?%elem_of_nil.
    + by intros m ?%elem_of_nil.
  - unfold run_calls in *. rewrite foldl_snoc. cbv zeta in *.
    set (s := foldl (λ s c, perform c s) (init cap t1 t2) calls) in *.
    destruct IH as (J1 & J2 & J3 & J4).
    assert (K1 : ∀ m, m ∈ _substep_requests s →
              call_add_request None m ∈ calls ++ [c])
      by (intros; apply elem_of_app; left; by apply J1).
    assert (K2 : ∀ p m, _step_requests s !! p = Some m →
              call_add_request (Some p) m ∈ calls ++ [c])
      by (intros; apply elem_of_app; left; by eapply J2).
    assert (K3 : ∀ m, PyObj m ∈ wire s →
              call_add_request None m ∈ calls ++ [c])
      by (intros; apply elem_of_app; left; by apply J3).
    assert (K4 : ∀ m, Raw m ∈ wire s →
              ∃ p, call_add_request (Some p) m ∈ calls ++ [c]).
    { intros m Hm. destruct (J4 m Hm) as [p Hp]. exists p.
      apply elem_of_app. by left. }
    clearbody s. clear J1 J2 J3 J4.
    pose proof (perform_quiet c s) as Hq.
    destruct c as [port msg|pick|now port|t1' t2' t3' is_alive signals|signals].
    + clear Hq. simpl. unfold after.
      destruct (add_request_frame port msg s) as (s' & -> & Hs & Hr & _ & _ & _ & Hw).
      simpl. rewrite Hs, Hr, Hw. repeat split; try done.
      * destruct port; [done|].
        intros m [->|Hm]%elem_of_cons; [|by apply K1].
        apply elem_of_app. right. left.
      * destruct port as [q|]; [|done]. intros p m.
        destruct (decide (q = p)) as [->|Hne].
        -- rewrite lookup_insert_eq. intros [= ->].
           apply elem_of_app. right. left.
        -- rewrite lookup_insert_ne by done. apply K2.
    + destruct Hq as (-> & -> & _ & _ & replies & -> & Hf).
      rewrite Forall_forall in Hf. repeat split; try done.
      * intros m [?|Hm]%elem_of_app; [by apply K3|].
        by destruct (Hf _ Hm).
      * intros m [?|Hm]%elem_of_app; [by apply K4|].
        by destruct (Hf _ Hm).
    + clear Hq. simpl. run.
      destruct (_step_requests s !! port) as [msg|] eqn:E; simpl.
      * destruct (decide (port ∈ _claimed_ports s)); simpl;
          (repeat split; try done;
           [ intros p m Hm; apply lookup_delete_Some in Hm as [_ Hm];
             by eapply K2
           | intros m [?|Hm]%elem_of_app; [by apply K3|];
             by apply list_elem_of_singleton in Hm
           | intros m [?|Hm]%elem_of_app; [by apply K4|];
             apply list_elem_of_singleton in Hm as [= ->]; exists port;
             by eapply K2 ]).
      * destruct (decide (port ∈ _claimed_ports s)); simpl.
        { repeat split; try done.
          - intros m [?|Hm]%elem_of_app; [by apply K3|].
            by apply list_elem_of_singleton in Hm.
          - intros m [?|Hm]%elem_of_app; [by apply K4|].
            by apply list_elem_of_singleton in Hm. }
        destruct (list_pop (_substep_requests s)) as [[msg rest]|] eqn:Ep;
          simpl.
        -- apply list_pop_Some in Ep. repeat split; try done.
           ++ intros m Hm. apply K1. rewrite Ep. apply elem_of_app. by left.
           ++ intros m [?|Hm]%elem_of_app; [by apply K3|].
              apply list_elem_of_singleton in Hm as [= ->]. apply K1.
              rewrite Ep. apply elem_of_app. right. left.
           ++ intros m [?|Hm]%elem_of_app; [by apply K4|].
              by apply list_elem_of_singleton in Hm.
        -- repeat split; try done.
           ++ intros m [?|Hm]%elem_of_app; [by apply K3|].
              by apply list_elem_of_singleton in Hm.
           ++ intros m [?|Hm]%elem_of_app; [by apply K4|].
              by apply list_elem_of_singleton in Hm.
    + destruct Hq as (-> & -> & _ & _ & replies & -> & Hf).
      rewrite Forall_forall in Hf. repeat split; try done.
      * intros m [?|Hm]%elem_of_app; [by apply K3|].
        by destruct (Hf _ Hm).
      * intros m [?|Hm]%elem_of_app; [by apply K4|].
        by destruct (Hf _ Hm).
    + destruct Hq as (-> & -> & _ & _ & replies & -> & Hf).
      rewrite Forall_forall in Hf. repeat split; try done.
      * intros m [?|Hm]%elem_of_app; [by apply K3|].
        by destruct (Hf _ Hm).
      * intros m [?|Hm]%elem_of_app; [by apply K4|].
        by destruct (Hf _ Hm).
Qed.

(** *** The substep queue, for any number of substeps *)

Lemma add_requests_substeps (msgs : list Msg) s :
  ∃ s', add_requests ((λ m, (None, m)) <$> msgs) s = (Ok tt, s') ∧
    _substep_requests s' = reverse msgs ++ _substep_requests s ∧
    _step_requests s' = _step_requests s ∧
    _claimed_ports s' = _claimed_ports s ∧
    wire s' = wire s.
Proof.
  revert s. induction msgs as [|m msgs IH]; intros s; [by exists s|].
  rewrite fmap_cons. simpl.
  destruct (add_request_frame None m s) as (a & E & Hq & Hr & _ & Hc & _ & Hw).
  rewrite (bind_Ok _ _ _ _ _ E).
  destruct (IH a) as (s' & -> & Hq' & Hr' & Hc' & Hw'). exists s'.
  rewrite Hq', Hq, Hr', Hr, Hc', Hc, Hw', Hw, reverse_cons, <- app_assoc.
  done.
Qed.

Lemma process_requests_drain (msgs : list Msg) (signals : list (Time * Z)) s :
  _substep_requests s = reverse msgs →
  length signals = length msgs →
  (∀ tp, tp ∈ signals →
     _step_requests s !! tp.2 = None ∧ tp.2 ∉ _claimed_ports s) →
  ∃ s', process_requests signals s = (Ok tt, s') ∧
    wire s' = wire s ++ (PyObj <$> msgs) ∧ _substep_requests s' = [].
Proof.
  revert signals s. induction msgs as [|m msgs IH]; intros signals s Hq Hl Hf.
  - destruct signals; [|done]. exists s. by rewrite app_nil_r.
  - destruct signals as [|[now port] signals]; [done|].
    rewrite reverse_cons in Hq. simpl.
    destruct (Hf (now, port)) as [Hr Hc]; [left|]. simpl in Hr, Hc.
    rewrite (bind_Ok _ _ _ _ _
               (process_request_substep now port m _ s Hr Hc Hq)).
    match goal with |- context [process_requests signals ?x] =>
      destruct (IH signals x) as (s' & -> & Hw & Hq') end.
    + done.
    + simpl in Hl. lia.
    + simpl. intros tp Htp. apply Hf. by right.
    + exists s'. rewrite Hw. simpl. by rewrite <- app_assoc.
Qed.

(** X6: Any number of substeps submitted to a manager with an empty substep
    queue and then fetched by as many readiness signals on ports that are
    neither awaited nor claimed are delivered in the order of their
    submission, every call returning normally, and the queue is empty
    again. *)
Theorem substeps_drain_in_order (msgs : list Msg)
    (signals : list (Time * Z)) s :
  _substep_requests s = [] →
  length signals = length msgs →
  (∀ tp, tp ∈ signals →
     _step_requests s !! tp.2 = None ∧ tp.2 ∉ _claimed_ports s) →
  let session : M Msg unit :=
    add_requests ((λ m, (None, m)) <$> msgs) ;; process_requests signals in
  outcome session s = Ok tt ∧
  wire (after session s) = wire s ++ (PyObj <$> msgs) ∧
  _substep_requests (after session s) = [].
Proof.
  intros Hq Hl Hf session. subst session. unfold outcome, after.
  destruct (add_requests_substeps msgs s) as (a & E & Hq' & Hr & Hc & Hw).
  rewrite (bind_Ok _ _ _ _ _ E).
  destruct (process_requests_drain msgs signals a) as (s' & -> & Hw' & Hq'').
  - by rewrite Hq', Hq, app_nil_r.
  - done.
  - intros tp Htp. rewrite Hr, Hc. by apply Hf.
  - simpl. by rewrite Hw', Hw.
Qed.

(** *** Claiming a port *)

Lemma process_request_no_step now port s :
  _step_requests s !! port = None →
  ∃ r, wire (after (process_request now port) s) = wire s ++ [r] ∧
       ∀ m, r ≠ Raw m.
Proof.
  intros H. unfold after.
  destruct (decide (port ∈ _claimed_ports s)) as [Hc|Hc].
  - rewrite process_request_claimed by done. by eexists.
  - destruct (_substep_requests s) as [|m rest _] eqn:Hq using rev_ind.
    + rewrite process_request_idle by done. by eexists.
    + rewrite (process_request_substep _ _ m rest) by done. by eexists.
Qed.

(** X7: The intended use of a port: [worker_available] claims it, a
    step/workflow request is filed for it, and at its next readiness
    signal the request is delivered without any exception; the port is
    then neither available nor claimed, nothing is pending for it, and a
    further signal of the port does not deliver a step request again. *)
Theorem claim_file_deliver pick msg now s :
  pop_ok pick → _available_ports s ≠ ∅ →
  let p := pick (_available_ports s) in
  let session : M Msg unit :=
    worker_available pick ;; add_request (Some p) msg ;;
    process_request now p in
  let s' := after session s in
  outcome session s = Ok tt ∧
  wire s' = wire s ++ [Raw msg] ∧
  _step_requests s' !! p = None ∧
  (p ∉ _available_ports s') ∧ (p ∉ _claimed_ports s') ∧
  ∀ now', ∃ r, wire (after (process_request now' p) s') = wire s' ++ [r] ∧
               ∀ m, r ≠ Raw m.
Proof.
  intros Hpick Hne p session s'. subst session s'. unfold outcome, after.
  erewrite bind_Ok;
    [|rewrite worker_available_eq, decide_True by done; reflexivity].
  fold p. cbv beta.
  match goal with |- context [(add_request (Some p) msg ≫= _) ?a] =>
    destruct (add_request_frame (Some p) msg a)
      as (b & E & _ & Hr & Ha & Hc & _ & Hw) end.
  rewrite (bind_Ok _ _ _ _ _ E). simpl in Hr, Ha, Hc, Hw.
  assert (Hl : _step_requests b !! p = Some msg)
    by (by rewrite Hr, lookup_insert_eq).
  rewrite (process_request_step now p msg b Hl). cbv zeta.
  rewrite decide_True by (rewrite Hc; set_solver). cbn [fst snd].
  split; [done|]. split; [simpl; by rewrite Hw|].
  split; [simpl; by rewrite Hr, lookup_delete_eq|].
  split; [simpl; rewrite Ha; set_solver|].
  split; [simpl; rewrite Hc; set_solver|].
  intros now'. apply process_request_no_step. simpl.
  by rewrite Hr, lookup_delete_eq.
Qed.

Lemma perform_keeps_claim port (c : Call Msg) s :
  not_signal_of port c →
  port ∈ _claimed_ports s → port ∉ _available_ports s →
  port ∈ _claimed_ports (perform c s) ∧
  port ∉ _available_ports (perform c s).
Proof.
  destruct c as [q msg|pick|now q|t1 t2 t3 is_alive signals|signals];
    simpl; intros Hadm Hc Ha.
  - unfold after. destruct (add_request_frame q msg s)
      as (s' & E & _ & _ & Ea & Ec & _). rewrite E. simpl.
    by rewrite Ea, Ec.
  - unfold after. rewrite worker_available_eq.
    destruct (decide (_available_ports s ≠ ∅)); simpl; [set_solver|].
    by destruct (decide (_num_workers s < _max_workers s)).
  - run. destruct (_step_requests s !! q); simpl.
    + destruct (decide (q ∈ _claimed_ports s)); simpl; set_solver.
    + destruct (decide (q ∈ _claimed_ports s)); simpl; [done|].
      destruct (list_pop (_substep_requests s)) as [[m rest]|]; simpl;
        set_solver.
  - destruct (check_workers_frame t1 t2 t3 is_alive signals s)
      as (_ & -> & Ha' & _). set_solver.
  - unfold after. destruct (kill_all_frame signals s)
      as (s' & E & _ & Ec & Ea). rewrite E. simpl. by rewrite Ea, Ec.
Qed.

(** X8: A port handed out by [worker_available] stays claimed and out of the
    available set until its own next readiness signal, whatever other
    calls are made, so no later [worker_available] hands it out again. *)
Theorem claimed_port_not_reassigned pick port s :
  outcome (worker_available pick) s = Ok (Some port) →
  ∀ s'', reaches (not_signal_of port) (after (worker_available pick) s) s'' →
    port ∈ _claimed_ports s'' ∧ (port ∉ _available_ports s'') ∧
    ∀ pick', pop_ok pick' →
      outcome (worker_available pick') s'' ≠ Ok (Some port).
Proof.
  unfold outcome, after. rewrite worker_available_eq.
  intros Hout s'' Hr.
  assert (Hs : port ∈ _claimed_ports s'' ∧ port ∉ _available_ports s'').
  { induction Hr as [|s'' c Hr [IHc IHa] Hc].
    - destruct (decide (_available_ports s ≠ ∅)); simpl in *.
      + injection Hout as <-. set_solver.
      + by destruct (decide (_num_workers s < _max_workers s)).
    - by apply perform_keeps_claim. }
  destruct Hs as [Hc Ha]. repeat split; try done.
  intros pick' Hpick'. rewrite worker_available_eq.
  destruct (decide (_available_ports s'' ≠ ∅)) as [Hne|]; simpl.
  - intros [= Heq]. apply Ha. rewrite <- Heq. by apply Hpick'.
  - by destruct (decide (_num_workers s'' < _max_workers s'')).
Qed.

(** *** Starting workers on demand *)

(** X9: [add_request] starts no worker while nothing has been delivered yet,
    or while a port is available, or once [max_workers] is reached: any
    number of submissions then leaves the pool as it is and only counts
    the requests. *)
Theorem add_requests_start_no_worker (calls : list (option Z * Msg)) s :
  _n_processed s ≤ 0 ∨ _available_ports s ≠ ∅
    ∨ _max_workers s ≤ _num_workers s →
  let s' := after (add_requests calls) s in
  outcome (add_requests calls) s = Ok tt ∧
  _num_workers s' = _num_workers s ∧ _workers s' = _workers s ∧
  spawned s' = spawned s ∧
  _n_requested s' = _n_requested s + Z.of_nat (length calls).
Proof.
  revert s. induction calls as [|[port msg] calls IH]; intros s Hs.
  - simpl. unfold after, outcome, ret. simpl. repeat split; try done. lia.
  - unfold after, outcome in *. simpl.
    assert (E : add_request port msg s =
      (Ok tt, set_n_requested (λ n, n + 1)
                match port with
                | None => set_substep_requests (λ q, msg :: q) s
                | Some p => set_step_requests (λ d, <[p := msg]> d) s
                end)).
    { rewrite add_request_eq. cbv zeta. rewrite decide_False; [done|].
      intros (? & ? & ?). destruct Hs as [?|[?|?]]; [lia|done|lia]. }
    rewrite (bind_Ok _ _ _ _ _ E).
    match goal with |- context [add_requests calls ?a] =>
      destruct (IH a) as (Ho & Hn & Hw & Hsp & Hr) end.
    { by destruct port. }
    rewrite Ho, Hn, Hw, Hsp, Hr. destruct port; simpl; repeat split; lia.
Qed.

(** *** A killed worker is never forgiven *)

Lemma perform_keeps_gap (c : Call Msg) s :
  between_checks c →
  _worker_alive_time (perform c s) = _worker_alive_time s ∧
  (Z.of_nat (length (_workers s)) < _num_workers s →
   Z.of_nat (length (_workers (perform c s))) < _num_workers (perform c s)).
Proof.
  destruct c as [port msg|pick|now port|t1 t2 t3 is_alive signals|signals];
    try done; intros _; simpl; unfold after.
  - rewrite add_request_eq. cbv zeta.
    destruct (decide (_ ∧ _ ∧ _)); destruct port; simpl;
      rewrite ?length_app; simpl; split; try done; lia.
  - rewrite worker_available_eq.
    destruct (decide (_available_ports s ≠ ∅)); simpl; [done|].
    destruct (decide (_num_workers s < _max_workers s)); simpl;
      rewrite ?length_app; simpl; split; try done; lia.
  - run. destruct (_step_requests s !! port); simpl.
    + by destruct (decide (port ∈ _claimed_ports s)).
    + destruct (decide (port ∈ _claimed_ports s)); simpl; [done|].
      by destruct (list_pop (_substep_requests s)) as [[m rest]|].
Qed.

(** X10: Once [check_workers] has raised ProcessKilled, then, through any
    further [add_request], [worker_available] and [process_request] calls
    (no [check_workers] or [kill_all] in between), every [check_workers]
    whose liveness check is due raises it again, whatever the processes
    then report: the dead record is gone but the worker count still
    includes it. *)
Theorem process_killed_persists t1 t2 t3 is_alive (signals : list Z) s :
  outcome (check_workers t1 t2 t3 is_alive signals) s
    = Raised ProcessKilled →
  ∀ s'', reaches between_checks
           (after (check_workers t1 t2 t3 is_alive signals) s) s'' →
  ∀ t1' t2' t3' is_alive' (signals' : list Z),
    t1' - t2 > five_seconds →
    outcome (check_workers t1' t2' t3' is_alive' signals') s''
    = Raised ProcessKilled.
Proof.
  unfold outcome, after. rewrite check_workers_eq. cbv zeta.
  assert (Hidle : ∀ x : State Msg,
    (if decide (t3 - _last_avail_time x < five_seconds)
     then (Ok tt, x) else reclaim signals x).1 ≠ Raised ProcessKilled).
  { intros x. case_decide; [done|].
    by destruct (reclaim_frame signals x) as (s' & -> & _). }
  destruct (decide (t1 - _worker_alive_time s > five_seconds));
    [|by intros ?%Hidle].
  destruct (decide (_ < _num_workers s)) as [Hlt|]; [|by intros ?%Hidle].
  intros _ s'' Hr. cbn [snd] in Hr.
  assert (Hgap : _worker_alive_time s'' = t2 ∧
                 Z.of_nat (length (_workers s'')) < _num_workers s'').
  { induction Hr as [|x c Hr [IHt IHg] Hc]; [done|].
    destruct (perform_keeps_gap c x Hc) as [Ht Hg].
    split; [congruence|by apply Hg]. }
  destruct Hgap as [Ht Hg].
  intros t1' t2' t3' is_alive' signals' Hdue.
  rewrite check_workers_eq. cbv zeta. rewrite Ht.
  rewrite decide_True by done. rewrite decide_True; [done|]. simpl.
  pose proof (length_filter (λ w, is_alive' w = true) (_workers s'')). lia.
Qed.

End ManagerMore.

(** * Facts about the worker's job loop *)
Module WorkerLoopFacts.
Import Worker WorkerLoop.

Scheme Work_mut := Induction for Work Sort Prop
  with Yields_mut := Induction for Yields Sort Prop
  with Polls_mut := Induction for Polls Sort Prop.
Combined Scheme Work_mutind from Work_mut, Yields_mut, Polls_mut.

(** X15: [pop_env] without a [push_env] before it does not fail: at level 0
    of a running worker the level becomes -1, which Python's subscript
    takes from the end, so the socket and the port of the deepest level
    the worker ever reached become the active ones. *)
Theorem pop_env_at_level_0 (w : State) :
  running w → _stack_idx w = 0 →
  (pop_env w).1 = Done ∧
  _stack_idx (pop_env w).2 = -1 ∧
  env_master_socket (pop_env w).2 = last (_master_sockets w) ∧
  active_port (pop_env w).2 = last (_master_ports w).
Proof.
  intros Hrun Hidx.
  destruct (WorkerFacts.running_consistent w Hrun) as ([_ Hhi] & Hlen & _).
  assert (Hget : ∀ {A} (l : list A), (0 < length l)%nat →
            getitem l (-1) = last l).
  { intros A l Hl. unfold getitem.
    rewrite decide_False, decide_True by lia.
    rewrite last_lookup. f_equal. lia. }
  unfold pop_env, active_port. simpl. rewrite Hidx. simpl.
  rewrite Hget by lia.
  destruct (last (_master_sockets w)) as [x|] eqn:E.
  - simpl. repeat split; try done. apply Hget. lia.
  - apply last_None in E. rewrite E in Hhi. simpl in Hhi. lia.
Qed.

Section Facts.
Context {Payload : Type} (fresh : nat → Socket * Z).
Implicit Types (st : St Payload) (w : State) (work : Work Payload).

Lemma push_env_length sock port w :
  consistent w →
  length (_master_sockets (push_env sock port w).2)
  = (length (_master_sockets w) `max` (Z.to_nat (_stack_idx w) + 2))%nat.
Proof.
  intros ([Hlo Hhi] & _). unfold push_env. simpl. case_decide; simpl.
  - destruct (getitem _ _); simpl; lia.
  - rewrite length_app. simpl. lia.
Qed.

Lemma consistent_active_port w :
  consistent w → is_Some (active_port w).
Proof.
  intros ([Hlo Hhi] & Hlen & _). unfold active_port.
  rewrite WorkerFacts.getitem_nonneg by lia.
  apply lookup_lt_is_Some_2. lia.
Qed.

Lemma restored_intro d st st' :
  _stack_idx st'.1 = _stack_idx st.1 →
  env_master_socket st'.1 = env_master_socket st.1 →
  env_context st'.1 = env_context st.1 →
  consistent st'.1 →
  _master_sockets st.1 `prefix_of` _master_sockets st'.1 →
  _master_ports st.1 `prefix_of` _master_ports st'.1 →
  length (_master_sockets st'.1)
    = (length (_master_sockets st.1)
       `max` (Z.to_nat (_stack_idx st.1) + 1 + d))%nat →
  (∃ new, st'.2 = st.2 ++ new ∧ Forall (λ e, ∀ sock, e ≠ Close sock) new) →
  restored d st st'.
Proof. intros. unfold restored. tauto. Qed.

Lemma restored_events st (events : list (Event Payload)) :
  consistent st.1 →
  Forall (λ e, ∀ sock, e ≠ Close sock) events →
  restored 0 st (st.1, st.2 ++ events).
Proof.
  intros Hc Hev. pose proof Hc as ([Hlo Hhi] & _).
  apply restored_intro; simpl; try done; [lia|by exists events].
Qed.

Lemma restored_refl st : consistent st.1 → restored 0 st st.
Proof.
  intros Hc. pose proof Hc as ([Hlo Hhi] & _).
  apply restored_intro; try done; [lia|].
  exists []. by rewrite app_nil_r.
Qed.

Lemma restored_trans d1 d2 st st1 st2 :
  restored d1 st st1 → restored d2 st1 st2 →
  restored (d1 `max` d2) st st2.
Proof.
  intros (Hi & He & Hx & Hc & Hs & Hp & Hl & new & Hn & Hf)
         (Hi' & He' & Hx' & Hc' & Hs' & Hp' & Hl' & new' & Hn' & Hf').
  apply restored_intro; try congruence; try (by etrans).
  - rewrite Hl', Hl, Hi. lia.
  - exists (new ++ new'). rewrite Hn', Hn, app_assoc. split; [done|].
    by apply Forall_app.
Qed.

Lemma restored_weaken d st st' :
  restored d st st' → consistent st'.1.
Proof. by intros (_ & _ & _ & ? & _). Qed.

(** One unready poll: a level down, a job there, and back. *)
Lemma nested_round d (nested : Work Payload) st :
  consistent st.1 →
  (∀ st1, consistent st1.1 →
     ∃ b st2, _process_job fresh nested st1 = (Returned b, st2) ∧
       restored d st1 st2) →
  let new := fresh (length (_master_sockets st.1)) in
  ∃ w1 b st2 w3,
    push_env new.1 new.2 st.1 = (Done, w1) ∧
    _process_job fresh nested (w1, st.2) = (Returned b, st2) ∧
    pop_env st2.1 = (Done, w3) ∧
    restored (S d) st (w3, st2.2).
Proof.
  intros Hc IH new. pose proof Hc as ([Hlo Hhi] & Hlen & Hsock & Hctx).
  destruct (WorkerFacts.push_env_consistent new.1 new.2 st.1 Hc)
    as (Hd1 & Hc1 & Hi1).
  destruct (WorkerFacts.push_env_prefix new.1 new.2 st.1) as [Hs1 Hp1].
  pose proof (push_env_length new.1 new.2 st.1 Hc) as Hl1.
  destruct (push_env new.1 new.2 st.1) as [o1 w1] eqn:E1. simpl in *.
  subst o1.
  destruct (IH (w1, st.2) Hc1)
    as (b & st2 & E2 & Hi2 & He2 & Hx2 & Hc2 & Hs2 & Hp2 & Hl2 & ev & Hn2 & Hf2).
  simpl in *.
  destruct (WorkerFacts.pop_env_consistent st2.1 Hc2) as (Hd3 & Hc3 & Hi3);
    [lia|].
  destruct (WorkerFacts.pop_env_lists st2.1) as [Hs3 Hp3].
  destruct (pop_env st2.1) as [o3 w3] eqn:E3. simpl in *. subst o3.
  exists w1, b, st2, w3. split; [done|]. split; [done|]. split; [done|].
  apply restored_intro; simpl; try done.
  - lia.
  - destruct Hc3 as (_ & _ & -> & _).
    rewrite Hi3, Hi2, Hi1, Hs3, Hsock.
    replace (Z.to_nat (_stack_idx st.1 + 1 - 1))
      with (Z.to_nat (_stack_idx st.1)) by lia.
    destruct (lookup_lt_is_Some_2 (_master_sockets st.1)
                (Z.to_nat (_stack_idx st.1))) as [x Hx]; [lia|].
    rewrite Hx. eapply prefix_lookup_Some; [done|]. by etrans.
  - destruct Hc3 as (_ & _ & _ & ->). lia.
  - rewrite Hs3. by etrans.
  - rewrite Hp3. by etrans.
  - rewrite Hs3, Hl2, Hl1, Hi1. lia.
  - by exists ev.
Qed.

Lemma job_restores :
  (∀ work st, consistent st.1 →
     ∃ b st', _process_job fresh work st = (Returned b, st') ∧
       (b = false ↔ work = Sentinel) ∧ restored (depth work) st st') ∧
  (∀ (ys : Yields Payload) st, consistent st.1 →
     ∃ st', drive fresh ys st = (Returned true, st') ∧
       restored (depth_yields ys) st st') ∧
  (∀ (polls : Polls Payload) st, consistent st.1 →
     ∃ st', wait fresh polls st = (Returned true, st') ∧
       restored (depth_polls polls) st st').
Proof.
  apply Work_mutind.
  - intros st Hc. destruct (consistent_active_port _ Hc) as [p Hp].
    simpl. rewrite Hp. eexists _, _. split; [done|]. split; [done|].
    apply (restored_events st [Announce p]); [done|].
    by repeat constructor.
  - intros st Hc. destruct (consistent_active_port _ Hc) as [p Hp].
    simpl. rewrite Hp, <- app_assoc. eexists _, _. split; [done|].
    split; [done|].
    apply (restored_events st [Announce p; Sleep]); [done|].
    by repeat constructor.
  - intros batch st Hc. destruct (consistent_active_port _ Hc) as [p Hp].
    simpl. rewrite Hp, <- app_assoc. eexists _, _. split; [done|].
    split; [done|].
    apply (restored_events st [Announce p; RunSubstep batch]); [done|].
    by repeat constructor.
  - intros is_step ys IH st Hc.
    destruct (consistent_active_port _ Hc) as [p Hp].
    simpl. rewrite Hp, <- app_assoc. cbn [app].
    pose proof (restored_events st [Announce p; Start is_step] Hc) as Hr.
    destruct (IH (st.1, st.2 ++ [Announce p; Start is_step]) Hc)
      as (st' & -> & Hr').
    eexists _, _. split; [done|]. split; [done|].
    apply (restored_trans 0 _ _ _ _ (Hr ltac:(by repeat constructor)) Hr').
  - intros st Hc. exists st. split; [done|]. by apply restored_refl.
  - intros rest IH st Hc. simpl. by apply IH.
  - intros polls IHp rest IHr st Hc. simpl.
    destruct (IHp st Hc) as (st1 & -> & Hr1).
    destruct (IHr st1 (restored_weaken _ _ _ Hr1)) as (st2 & -> & Hr2).
    exists st2. split; [done|]. by eapply restored_trans.
  - intros st Hc. exists st. split; [done|]. by apply restored_refl.
  - intros nested IHn next IHx st Hc.
    destruct (nested_round (depth nested) nested st Hc)
      as (w1 & b & st2 & w3 & E1 & E2 & E3 & Hr).
    { intros st1 Hc1. destruct (IHn st1 Hc1) as (b & st2 & ? & _ & ?).
      by exists b, st2. }
    simpl. rewrite E1, E2, E3.
    destruct (IHx (w3, st2.2) (restored_weaken _ _ _ Hr)) as (st4 & -> & Hr4).
    exists st4. split; [done|]. by eapply restored_trans.
Qed.

(** X11: A running worker that processes a job that ends comes back from
    [_process_job] at the nesting level it started from, with the same
    active master socket, active port and [env] context, its socket and
    port lists only extended, and without any IndexError, however deep the
    job made it nest.  It returns False exactly when the answer it
    received itself was the termination sentinel: a sentinel received by
    a nested job does not stop the worker. *)
Theorem process_job_keeps_level work w (log : list (Event Payload)) :
  running w →
  ∃ b st', _process_job fresh work (w, log) = (Returned b, st') ∧
    (b = false ↔ work = Sentinel) ∧
    _stack_idx st'.1 = _stack_idx w ∧
    env_master_socket st'.1 = env_master_socket w ∧
    active_port st'.1 = active_port w ∧
    env_context st'.1 = env_context w ∧
    _master_sockets w `prefix_of` _master_sockets st'.1 ∧
    _master_ports w `prefix_of` _master_ports st'.1 ∧
    log `prefix_of` st'.2.
Proof.
  intros Hrun. pose proof (WorkerFacts.running_consistent w Hrun) as Hc.
  destruct (proj1 job_restores work (w, log) Hc)
    as (b & st' & E & Hb & Hi & He & Hx & Hc' & Hs & Hp & Hl & new & Hn & _).
  simpl in *. exists b, st'. repeat (split; [done|]).
  split; [|repeat (split; [done|]); by exists new].
  destruct (consistent_active_port w Hc) as [p Hact]. rewrite Hact.
  unfold active_port in *. destruct Hc as ([Hlo Hhi] & _).
  rewrite Hi, WorkerFacts.getitem_nonneg by lia.
  rewrite WorkerFacts.getitem_nonneg in Hact by lia.
  by eapply prefix_lookup_Some.
Qed.

(** X12: A job makes the worker hold one master socket (and port) for each
    nesting level it reaches and no more: after [_process_job] their
    number is the larger of what it was and the level of the job plus one
    plus the depth of the job's nesting. *)
Theorem process_job_sockets work w (log : list (Event Payload)) :
  running w →
  let w' := (_process_job fresh work (w, log)).2.1 in
  length (_master_sockets w')
    = (length (_master_sockets w)
       `max` (Z.to_nat (_stack_idx w) + 1 + depth work))%nat ∧
  length (_master_ports w') = length (_master_sockets w').
Proof.
  intros Hrun. pose proof (WorkerFacts.running_consistent w Hrun) as Hc.
  destruct (proj1 job_restores work (w, log) Hc)
    as (b & st' & -> & _ & _ & _ & _ & Hc' & _ & _ & Hl & _).
  simpl in *. split; [done|]. by destruct Hc' as (_ & ? & _).
Qed.

Lemma serve_no_sentinel (works : list (Work Payload)) st :
  Forall (λ work, work ≠ Sentinel) works → consistent st.1 →
  ∃ st', serve fresh works st = (Returned true, st') ∧
    restored (max_list (depth <$> works)) st st'.
Proof.
  intros Hw. revert st. induction Hw as [|work works Hne _ IH]; intros st Hc.
  - exists st. split; [done|]. by apply restored_refl.
  - destruct (proj1 job_restores work st Hc) as (b & st1 & E & Hb & Hr).
    destruct b; [|by destruct Hne; apply Hb].
    destruct (IH st1 (restored_weaken _ _ _ Hr)) as (st2 & E2 & Hr2).
    exists st2. simpl. rewrite E. split; [done|]. by eapply restored_trans.
Qed.

Lemma serve_app (works rest : list (Work Payload)) st st' :
  serve fresh works st = (Returned true, st') →
  serve fresh (works ++ rest) st = serve fresh rest st'.
Proof.
  revert st. induction works as [|work works IH]; intros st; simpl.
  - by intros [= ->].
  - destruct (_process_job fresh work st) as [[[]|] st1]; [apply IH|done..].
Qed.

(** X14: [run] stops at the first termination sentinel it receives at the top
    level, whatever answers would follow: it has then announced its first
    port once more, is at level 0, and closes every master socket it
    holds, one for each nesting level the jobs before reached; no socket
    is closed earlier. *)
Theorem run_until_sentinel (before rest : list (Work Payload)) :
  Forall (λ work, work ≠ Sentinel) before →
  ∃ w log,
    run fresh (before ++ Sentinel :: rest)
    = (Returned false,
       (w, log ++ Announce (fresh 0).2 :: (Close <$> _master_sockets w))) ∧
    Forall (λ e, ∀ sock, e ≠ Close sock) log ∧
    _stack_idx w = 0 ∧
    length (_master_sockets w) = S (max_list (depth <$> before)).
Proof.
  intros Hw. unfold run.
  set (st0 := (run_setup (fresh 0).1 (fresh 0).2 init, []) : St Payload).
  assert (Hc0 : consistent st0.1).
  { apply WorkerFacts.running_consistent. eexists _, _. apply evolves_here. }
  destruct (serve_no_sentinel before st0 Hw Hc0)
    as (st1 & E & Hi & _ & _ & Hc1 & _ & Hp & Hl & new & Hn & Hf).
  rewrite (serve_app _ _ _ _ E). simpl in Hi, Hp, Hl, Hn. simpl.
  assert (Hact : active_port st1.1 = Some (fresh 0).2).
  { unfold active_port. rewrite Hi, WorkerFacts.getitem_nonneg by done.
    by apply (prefix_lookup_Some [(fresh 0).2]). }
  rewrite Hact. simpl. exists st1.1, new.
  rewrite Hn, <- app_assoc. by repeat split.
Qed.

Lemma announces_from_mono lo lo' w w' (e : Event Payload) :
  (lo' ≤ lo)%nat → _master_ports w `prefix_of` _master_ports w' →
  announces_from lo w e → announces_from lo' w' e.
Proof.
  intros Hlo Hp He port Heq. destruct (He port Heq) as (k & Hk & Hl).
  exists k. split; [lia|]. by eapply prefix_lookup_Some.
Qed.

Lemma announces_from_other lo w (e : Event Payload) :
  (∀ port, e ≠ Announce port) → announces_from lo w e.
Proof. intros He port Heq. by destruct (He port). Qed.

Lemma job_announces :
  (∀ work st, consistent st.1 →
     ∃ port rest, active_port st.1 = Some port ∧
       (_process_job fresh work st).2.2 = st.2 ++ Announce port :: rest ∧
       Forall (announces_from (S (Z.to_nat (_stack_idx st.1)))
                 (_process_job fresh work st).2.1) rest) ∧
  (∀ (ys : Yields Payload) st, consistent st.1 →
     ∃ new, (drive fresh ys st).2.2 = st.2 ++ new ∧
       Forall (announces_from (S (Z.to_nat (_stack_idx st.1)))
                 (drive fresh ys st).2.1) new) ∧
  (∀ (polls : Polls Payload) st, consistent st.1 →
     ∃ new, (wait fresh polls st).2.2 = st.2 ++ new ∧
       Forall (announces_from (S (Z.to_nat (_stack_idx st.1)))
                 (wait fresh polls st).2.1) new).
Proof.
  apply Work_mutind.
  - intros st Hc. destruct (consistent_active_port _ Hc) as [p Hp].
    exists p, []. simpl. rewrite Hp. by repeat split.
  - intros st Hc. destruct (consistent_active_port _ Hc) as [p Hp].
    exists p, [Sleep]. simpl. rewrite Hp, <- app_assoc.
    repeat split; try done. constructor; [|done].
    by apply announces_from_other.
  - intros batch st Hc. destruct (consistent_active_port _ Hc) as [p Hp].
    exists p, [RunSubstep batch]. simpl. rewrite Hp, <- app_assoc.
    repeat split; try done. constructor; [|done].
    by apply announces_from_other.
  - intros is_step ys IH st Hc.
    destruct (consistent_active_port _ Hc) as [p Hp].
    simpl. rewrite Hp, <- app_assoc. cbn [app].
    destruct (IH (st.1, st.2 ++ [Announce p; Start is_step]) Hc)
      as (new & Hn & Hf). simpl in Hn, Hf.
    exists p, (Start is_step :: new). rewrite Hn, <- app_assoc.
    repeat split; try done. constructor; [|done].
    by apply announces_from_other.
  - intros st Hc. exists []. simpl. by rewrite app_nil_r.
  - intros rest IH st Hc. simpl. by apply IH.
  - intros polls IHp rest IHr st Hc. simpl.
    destruct (IHp st Hc) as (new1 & Hn1 & Hf1).
    destruct (proj2 (proj2 job_restores) polls st Hc)
      as (st1 & E1 & Hr1).
    rewrite E1 in *. simpl in Hn1, Hf1.
    pose proof (restored_weaken _ _ _ Hr1) as Hc1.
    destruct (IHr st1 Hc1) as (new2 & Hn2 & Hf2).
    destruct (proj1 (proj2 job_restores) rest st1 Hc1) as (st2 & E2 & Hr2).
    rewrite E2 in *. simpl in Hn2, Hf2.
    destruct Hr1 as (Hi1 & _). destruct Hr2 as (_ & _ & _ & _ & _ & Hp2 & _).
    simpl. exists (new1 ++ new2). rewrite Hn2, Hn1, app_assoc. split; [done|].
    apply Forall_app. split.
    + eapply Forall_impl; [exact Hf1|]. intros e.
      by apply announces_from_mono.
    + by rewrite <- Hi1.
  - intros st Hc. exists []. simpl. by rewrite app_nil_r.
  - intros nested IHn next IHx st Hc.
    pose proof Hc as ([Hlo Hhi] & _).
    set (new := fresh (length (_master_sockets st.1))).
    destruct (WorkerFacts.push_env_consistent new.1 new.2 st.1 Hc)
      as (Hd1 & Hc1 & Hi1).
    destruct (push_env new.1 new.2 st.1) as [o1 w1] eqn:E1. simpl in *.
    subst o1.
    destruct (proj1 job_restores nested (w1, st.2) Hc1)
      as (b & st2 & E2 & _ & Hi2 & _ & _ & Hc2 & _ & Hp2 & _).
    destruct (IHn (w1, st.2) Hc1) as (p1 & rest1 & Ha1 & Hn1 & Hf1).
    rewrite E2 in *. simpl in *.
    destruct (WorkerFacts.pop_env_consistent st2.1 Hc2) as (Hd3 & Hc3 & Hi3);
      [lia|].
    destruct (WorkerFacts.pop_env_lists st2.1) as [_ Hp3].
    destruct (pop_env st2.1) as [o3 w3] eqn:E3. simpl in *. subst o3.
    subst new. rewrite E1, E2, E3.
    destruct (IHx (w3, st2.2) Hc3) as (new4 & Hn4 & Hf4).
    destruct (proj2 (proj2 job_restores) next (w3, st2.2) Hc3)
      as (st4 & E4 & _ & _ & _ & _ & _ & Hp4 & _).
    rewrite E4 in *. simpl in *.
    assert (Hpre : _master_ports w1 `prefix_of` _master_ports st4.1).
    { etrans; [exact Hp2|]. by rewrite <- Hp3. }
    exists ((Announce p1 :: rest1) ++ new4).
    rewrite Hn4, Hn1, <- app_assoc. split; [done|].
    apply Forall_app. split; [constructor|].
    + intros port [= <-]. exists (S (Z.to_nat (_stack_idx st.1))).
      split; [done|]. unfold active_port in Ha1.
      rewrite Hi1, WorkerFacts.getitem_nonneg in Ha1 by lia.
      replace (S (Z.to_nat (_stack_idx st.1)))
        with (Z.to_nat (_stack_idx st.1 + 1)) by lia.
      by eapply prefix_lookup_Some.
    + eapply Forall_impl; [exact Hf1|]. intros e.
      apply announces_from_mono; [lia|]. by rewrite <- Hp3.
    + replace (Z.to_nat (_stack_idx st.1))
        with (Z.to_nat (_stack_idx w3)) by lia. done.
Qed.

(** X13: While a job runs, the worker asks for more work only on the ports of
    deeper nesting levels: [_process_job] first announces the port of its
    own level, and every port announced after that, until it returns, is
    one the worker holds for a strictly deeper level.  When the ports the
    worker holds are pairwise distinct, the port of the job's own level is
    therefore not announced again while the job runs. *)
Theorem process_job_announces work w (log : list (Event Payload)) :
  running w →
  let st' := (_process_job fresh work (w, log)).2 in
  ∃ port rest, active_port w = Some port ∧
    st'.2 = log ++ Announce port :: rest ∧
    Forall (announces_from (S (Z.to_nat (_stack_idx w))) st'.1) rest ∧
    (NoDup (_master_ports st'.1) → Forall (λ e, e ≠ Announce port) rest).
Proof.
  intros Hrun st'. pose proof (WorkerFacts.running_consistent w Hrun) as Hc.
  destruct (proj1 job_announces work (w, log) Hc)
    as (port & rest & Ha & Hl & Hf).
  exists port, rest. repeat (split; [done|]). intros Hnd.
  destruct (proj1 job_restores work (w, log) Hc)
    as (b & st1 & E & _ & _ & _ & _ & _ & _ & Hp & _).
  subst st'. rewrite E in *. simpl in *.
  destruct Hc as ([Hlo Hhi] & _). unfold active_port in Ha.
  rewrite WorkerFacts.getitem_nonneg in Ha by lia.
  pose proof (prefix_lookup_Some _ _ _ _ Ha Hp) as Hown.
  eapply Forall_impl; [exact Hf|]. intros e He Heq.
  destruct (He port Heq) as (k & Hk & Hlook).
  pose proof (NoDup_lookup _ _ _ _ Hnd Hown Hlook). lia.
Qed.

End Facts.
End WorkerLoopFacts.

(** * Concrete runs

    Messages are numbered; the manager is the one [WorkerManager(2, _)]
    builds at time 0 unless said otherwise. *)

(** C1, as stated, fails: S1, S2, S3 submitted in this order to a fresh
    manager and fetched on the free ports 10, 11, 12 go out as S1, S2, S3,
    not S3, S2, S1. *)
Lemma substeps_lifo_counterexample :
  let s : State nat := init 2 0 0 in
  let session : M nat unit :=
    add_request None 1%nat ;; add_request None 2%nat ;;
    add_request None 3%nat ;;
    process_request 0 10 ;; process_request 0 11 ;; process_request 0 12 in
  _substep_requests s = [] ∧ _step_requests s = ∅ ∧ _claimed_ports s = ∅ ∧
  outcome session s = Ok tt ∧
  wire (after session s) = [PyObj 1%nat; PyObj 2%nat; PyObj 3%nat] ∧
  wire (after session s) ≠ [PyObj 3%nat; PyObj 2%nat; PyObj 1%nat].
Proof. vm_compute. by repeat split. Qed.

Lemma substeps_delivered_oldest_first_witness :
  let s : State nat := init 2 0 0 in
  let session : M nat unit :=
    add_request None 1%nat ;; add_request None 2%nat ;;
    add_request None 3%nat ;;
    process_request 0 10 ;; process_request 0 11 ;; process_request 0 12 in
  _substep_requests s = [] ∧
  (∀ p, p ∈ [10; 11; 12] →
     _step_requests s !! p = None ∧ (p ∉ _claimed_ports s)) ∧
  wire (after session s) = [PyObj 1%nat; PyObj 2%nat; PyObj 3%nat].
Proof.
  assert (H : ∀ p : Z, p ∈ [10; 11; 12] →
            _step_requests (init (Msg:=nat) 2 0 0) !! p = None
            ∧ p ∉ _claimed_ports (init (Msg:=nat) 2 0 0)).
  { intros p _. split; [apply lookup_empty|apply not_elem_of_empty]. }
  split; [reflexivity|]. split; [exact H|].
  exact (proj1 (proj2 (substeps_delivered_oldest_first
           1%nat 2%nat 3%nat 10 11 12 0 0 0 (init 2 0 0) eq_refl H))).
Defined.

Lemma process_request_priority_witness :
  _step_requests claimed_5_pending_7 !! 5 = Some 7%nat ∧
  wire (after (process_request 9 5) claimed_5_pending_7)
    = wire claimed_5_pending_7 ++ [Raw 7%nat] ∧
  _last_avail_time (after (process_request 9 5) claimed_5_pending_7) = 9.
Proof.
  assert (H : _step_requests claimed_5_pending_7 !! 5 = Some 7%nat)
    by (vm_compute; reflexivity).
  split; [exact H|].
  destruct (proj1 (process_request_priority 9 5 claimed_5_pending_7) _ H)
    as (Hw & _ & _ & _ & Ht).
  split; [exact Hw|exact Ht].
Defined.

Lemma one_pending_step_request_per_port_witness :
  (∀ c : option Z * nat, c ∈ [(Some 6, 3%nat)] → c.1 ≠ Some 5) ∧
  pending (after (add_requests
             ([(Some 5, 1%nat); (None, 9%nat)]
              ++ (Some 5, 2%nat) :: [(Some 6, 3%nat)])) (init 2 0 0)) 5
  = [2%nat].
Proof.
  assert (H : ∀ c : option Z * nat, c ∈ [(Some 6, 3%nat)] → c.1 ≠ Some 5).
  { intros c Hc. apply list_elem_of_singleton in Hc. subst c. discriminate. }
  split; [exact H|].
  exact (proj2 (proj2 one_pending_step_request_per_port)
           (init 2 0 0) 5 2%nat _ _ H).
Defined.

(** C4, as stated, fails: port 5 signals, a request is then filed for it
    without claiming it, and at its next signal the request is delivered
    (before the KeyError) while the port is still in the available set. *)
Lemma busy_port_counterexample :
  let s1 : State nat := perform (call_process_request 0 5) (init 2 0 0) in
  let s2 := perform (call_add_request (Some 5) 7%nat) s1 in
  let s3 := perform (call_process_request 0 5) s2 in
  reachable s3 ∧ outcome (process_request 0 5) s2 = Raised (KeyError 5) ∧
  wire s3 = wire s2 ++ [Raw 7%nat] ∧ 5 ∈ _available_ports s3.
Proof.
  intros s1 s2 s3. split; [|split; [|split]].
  - exists 2, 0, 0. subst s1 s2 s3.
    apply reaches_call; [|exact I].
    apply reaches_call; [|exact I].
    apply reaches_call; [|exact I].
    apply reaches_here.
  - by vm_compute.
  - by vm_compute.
  - by vm_compute.
Qed.

Lemma available_claimed_disjoint_witness :
  reachable claimed_5_pending_7 ∧
  _available_ports claimed_5_pending_7 ∩ _claimed_ports claimed_5_pending_7
  = ∅.
Proof.
  assert (H : reachable claimed_5_pending_7).
  { exists 2, 0, 0.
    apply reaches_call; [|exact I].
    apply reaches_call; [|exact pop_ok_pick_first].
    apply reaches_call; [|exact I].
    apply reaches_here. }
  split; [exact H|].
  exact (proj1 (available_claimed_disjoint claimed_5_pending_7 H)).
Defined.

Lemma worker_available_claims_or_spawns_witness :
  let s : State nat := after (process_request 0 5) (init 2 0 0) in
  pop_ok pick_first ∧ _available_ports s ≠ ∅ ∧
  (∃ p, outcome (worker_available pick_first) s = Ok (Some p) ∧
     p ∈ _available_ports s) ∧
  let s0 : State nat := init 2 0 0 in
  _available_ports s0 = ∅ ∧ _num_workers s0 < _max_workers s0 ∧
  spawned (after (worker_available pick_first) s0) = S (spawned s0).
Proof.
  intros s.
  assert (H : _available_ports s ≠ ∅).
  { intros E. apply (not_elem_of_empty (C:=gset Z) 5). rewrite <- E.
    by vm_compute. }
  split; [apply pop_ok_pick_first|]. split; [exact H|].
  destruct (proj1 (worker_available_claims_or_spawns pick_first s
                     pop_ok_pick_first) H) as (p & Ho & Hp & _).
  split; [exists p; split; [exact Ho|exact Hp]|].
  intros s0.
  assert (H0 : _available_ports s0 = ∅) by reflexivity.
  assert (H1 : _num_workers s0 < _max_workers s0) by reflexivity.
  split; [exact H0|]. split; [exact H1|].
  destruct (proj2 (worker_available_claims_or_spawns pick_first s0
                     pop_ok_pick_first) H0) as (_ & _ & _ & Hspawn & _).
  exact (proj1 (proj2 (proj2 (Hspawn H1)))).
Defined.

(** C6, as stated, fails when [max_workers] is 0: the constructor starts
    its worker all the same. *)
Lemma worker_count_counterexample :
  let s : State nat := init 0 0 0 in
  active 0 s ∧ _max_workers s = 0 ∧ _num_workers s = 1 ∧
  ¬ _num_workers s ≤ _max_workers s.
Proof.
  intros s. split; [|by vm_compute].
  exists 0, 0. apply reaches_here.
Qed.

Lemma worker_count_bounds_witness :
  let s : State nat :=
    perform (call_worker_available pick_first) (init 2 0 0) in
  1 ≤ 2 ∧ active 2 s ∧ 1 ≤ _num_workers s ≤ 2.
Proof.
  intros s.
  assert (H : active 2 s).
  { exists 0, 0.
    apply reaches_call; [apply reaches_here|exact pop_ok_pick_first]. }
  split; [lia|]. split; [exact H|].
  exact (proj2 (worker_count_bounds 2 s ltac:(lia) H)).
Defined.

(** C7, as stated, fails: with a substep queued, a port that is neither
    claimed nor awaited gets the substep and is not made available. *)
Lemma process_request_idle_counterexample :
  let s : State nat := after (add_request None 1%nat) (init 2 0 0) in
  let s' := after (process_request 0 5) s in
  _step_requests s !! 5 = None ∧ (5 ∉ _claimed_ports s) ∧
  (5 ∉ _available_ports s') ∧ wire s' = wire s ++ [PyObj 1%nat] ∧
  wire s' ≠ wire s ++ [EmptyDict].
Proof.
  intros s s'. split; [by vm_compute|]. split; [by vm_compute|].
  split; [by vm_compute|]. split; by vm_compute.
Qed.

Lemma process_request_marks_available_witness :
  let s : State nat := init 2 0 0 in
  _step_requests s !! 5 = None ∧ (5 ∉ _claimed_ports s) ∧
  _substep_requests s = [] ∧
  5 ∈ _available_ports (after (process_request 0 5) s).
Proof.
  intros s.
  assert (H : 5 ∉ _claimed_ports s) by apply not_elem_of_empty.
  split; [reflexivity|]. split; [exact H|]. split; [reflexivity|].
  exact (proj1 (proj2 (process_request_marks_available 0 5 s
                         eq_refl H eq_refl))).
Defined.

(** C8, as stated, fails both ways.  One second after the constructor
    the only tracked worker is dead and nothing is raised, the check not
    being due.  And once a check has raised and dropped the dead record,
    the next check raises again although no tracked worker is dead. *)
Lemma check_workers_iff_counterexample :
  let s : State nat := init 2 0 0 in
  let dead : Pid → bool := λ _, false in
  let alive : Pid → bool := λ _, true in
  (∃ w, w ∈ _workers s ∧ dead w = false) ∧
  outcome (check_workers 1000 1000 1000 dead []) s = Ok tt ∧
  let s' := perform (call_check_workers 6000 6000 6000 dead []) s in
  reachable s' ∧ (∀ w, w ∈ _workers s' → alive w = true) ∧
  outcome (check_workers 12000 12000 12000 alive []) s'
  = Raised ProcessKilled.
Proof.
  intros s dead alive. split; [exists O; split; [by left|done]|].
  split; [by vm_compute|]. intros s'. split; [|split; by vm_compute].
  exists 2, 0, 0. subst s'.
  apply reaches_call; [apply reaches_here|exact I].
Qed.

Lemma check_workers_raises_iff_witness :
  let s : State nat := init 2 0 0 in
  Z.of_nat (length (_workers s)) = _num_workers s ∧
  outcome (check_workers 6000 6000 6000 (λ _, false) []) s
  = Raised ProcessKilled.
Proof.
  intros s. split; [reflexivity|].
  apply (proj2 (proj2 (proj2 (check_workers_raises_iff
           6000 6000 6000 (λ _, false) [] s))) eq_refl).
  split; [by vm_compute|]. exists O. split; [by left|done].
Defined.

Lemma process_request_unclaimed_raises_witness :
  let s : State nat := after (add_request (Some 5) 7%nat) (init 2 0 0) in
  _step_requests s !! 5 = Some 7%nat ∧ (5 ∉ _claimed_ports s) ∧
  outcome (process_request 0 5) s = Raised (KeyError 5) ∧
  wire (after (process_request 0 5) s) = wire s ++ [Raw 7%nat] ∧
  _step_requests claimed_5_pending_7 !! 5 = Some 7%nat ∧
  wire (after (process_request 9 5) claimed_5_pending_7)
  = wire claimed_5_pending_7 ++ [Raw 7%nat] ∧
  _n_processed (after (process_request 9 5) claimed_5_pending_7)
  = _n_processed claimed_5_pending_7 + 1.
Proof.
  intros s.
  assert (H : _step_requests s !! 5 = Some 7%nat) by (vm_compute; reflexivity).
  assert (Hc : 5 ∉ _claimed_ports s) by apply not_elem_of_empty.
  split; [exact H|]. split; [exact Hc|].
  destruct (process_request_unclaimed_raises 0 5 7%nat s H)
    as (_ & _ & Hraise & _).
  destruct (Hraise Hc) as (Ho & Hw & _). split; [exact Ho|].
  split; [exact Hw|].
  assert (H' : _step_requests claimed_5_pending_7 !! 5 = Some 7%nat)
    by (vm_compute; reflexivity).
  split; [exact H'|].
  destruct (process_request_unclaimed_raises 9 5 7%nat claimed_5_pending_7 H')
    as (_ & _ & _ & Hw' & _ & Hn' & _).
  split; [exact Hw'|exact Hn'].
Defined.

Lemma push_pop_round_trip_witness :
  let w := Worker.run_setup 0 4000 Worker.init in
  let popped := (Worker.pop_env (Worker.push_env 1 4001 w).2).2 in
  Worker.running w ∧ Worker._stack_idx popped = 0 ∧
  Worker.active_port popped = Some 4000.
Proof.
  intros w popped.
  assert (H : Worker.running w).
  { exists O, 4000. apply Worker.evolves_here. }
  split; [exact H|].
  destruct (WorkerFacts.push_pop_round_trip 1 4001 w H)
    as (_ & _ & Hidx & _ & Hport & _).
  split; [exact Hidx|exact Hport].
Defined.

(** ** Runs for the further facts *)

Lemma check_workers_retires_idle_witness :
  let call : M nat unit :=
    check_workers 6000 6000 6000 (λ _, true) [7; 8; 9] in
  outcome call three_workers = Ok tt ∧
  ¬ 6000 - _last_avail_time three_workers < five_seconds ∧
  (∀ p : Z, p ∈ [7; 8; 9] → p ∉ _claimed_ports three_workers) ∧
  1 ≤ _num_workers three_workers ∧
  _num_workers (after call three_workers)
  = 1 `max` (_num_workers three_workers - Z.of_nat (length [7; 8; 9])).
Proof.
  intros call.
  assert (H1 : outcome call three_workers = Ok tt) by (vm_compute; reflexivity).
  assert (H2 : ¬ 6000 - _last_avail_time three_workers < five_seconds)
    by (vm_compute; discriminate).
  assert (Hc : _claimed_ports three_workers = ∅) by (vm_compute; reflexivity).
  assert (H3 : ∀ p : Z, p ∈ [7; 8; 9] → p ∉ _claimed_ports three_workers).
  { intros p _. rewrite Hc. apply not_elem_of_empty. }
  assert (H4 : 1 ≤ _num_workers three_workers) by (vm_compute; discriminate).
  split; [exact H1|]. split; [exact H2|]. split; [exact H3|].
  split; [exact H4|].
  exact (proj1 (check_workers_retires_idle 6000 6000 6000 (λ _, true)
                  [7; 8; 9] three_workers H1 H2 H3 H4)).
Defined.

Lemma backlog_bounded_witness :
  reachable claimed_5_pending_7 ∧
  _n_processed claimed_5_pending_7
    + Z.of_nat (length (_substep_requests claimed_5_pending_7))
    + Z.of_nat (size (_step_requests claimed_5_pending_7))
  ≤ _n_requested claimed_5_pending_7.
Proof.
  assert (H : reachable claimed_5_pending_7).
  { exists 2, 0, 0.
    apply reaches_call; [|exact I].
    apply reaches_call; [|exact pop_ok_pick_first].
    apply reaches_call; [|exact I].
    apply reaches_here. }
  split; [exact H|].
  exact (proj2 (backlog_bounded claimed_5_pending_7 H)).
Defined.

Lemma substeps_drain_in_order_witness :
  let s : State nat := init 2 0 0 in
  let session : M nat unit :=
    add_requests ((λ m, (None, m)) <$> [1%nat; 2%nat]) ;;
    process_requests [(0, 10); (0, 11)] in
  _substep_requests s = [] ∧
  wire (after session s) = wire s ++ (PyObj <$> [1%nat; 2%nat]).
Proof.
  intros s session.
  assert (H : ∀ tp : Z * Z, tp ∈ [(0, 10); (0, 11)] →
            _step_requests s !! tp.2 = None ∧ tp.2 ∉ _claimed_ports s).
  { intros tp _. split; [apply lookup_empty|apply not_elem_of_empty]. }
  split; [reflexivity|].
  exact (proj1 (proj2 (substeps_drain_in_order [1%nat; 2%nat]
                         [(0, 10); (0, 11)] s eq_refl eq_refl H))).
Defined.

Lemma port_5_available_spec :
  _available_ports port_5_available ≠ ∅.
Proof.
  intros E. apply (not_elem_of_empty (C:=gset Z) 5). rewrite <- E.
  by vm_compute.
Qed.

Lemma claim_file_deliver_witness :
  let p := pick_first (_available_ports port_5_available) in
  let session : M nat unit :=
    worker_available pick_first ;; add_request (Some p) 7%nat ;;
    process_request 9 p in
  pop_ok pick_first ∧ _available_ports port_5_available ≠ ∅ ∧
  outcome session port_5_available = Ok tt.
Proof.
  intros p session.
  split; [exact pop_ok_pick_first|]. split; [exact port_5_available_spec|].
  exact (proj1 (claim_file_deliver pick_first 7%nat 9 port_5_available
                  pop_ok_pick_first port_5_available_spec)).
Defined.

Lemma claimed_port_not_reassigned_witness :
  outcome (worker_available pick_first) port_5_available = Ok (Some 5) ∧
  5 ∈ _claimed_ports (after (worker_available pick_first) port_5_available).
Proof.
  assert (H : outcome (worker_available pick_first) port_5_available
              = Ok (Some 5)) by (vm_compute; reflexivity).
  split; [exact H|].
  exact (proj1 (claimed_port_not_reassigned pick_first 5 port_5_available H
                  _ (reaches_here _ _))).
Defined.

Lemma add_requests_start_no_worker_witness :
  let s : State nat := init 2 0 0 in
  let calls := [(None, 1%nat); (Some 5, 2%nat)] in
  (_n_processed s ≤ 0 ∨ _available_ports s ≠ ∅
     ∨ _max_workers s ≤ _num_workers s) ∧
  _num_workers (after (add_requests calls) s) = _num_workers s.
Proof.
  intros s calls.
  assert (H : _n_processed s ≤ 0 ∨ _available_ports s ≠ ∅
                ∨ _max_workers s ≤ _num_workers s)
    by (left; vm_compute; discriminate).
  split; [exact H|].
  exact (proj1 (proj2 (add_requests_start_no_worker calls s H))).
Defined.

Lemma process_killed_persists_witness :
  let s : State nat := init 2 0 0 in
  let s' := after (check_workers 6000 6000 6000 (λ _, false) []) s in
  let s'' := perform (call_process_request 7000 5)
               (perform (call_add_request None 1%nat) s') in
  outcome (check_workers 6000 6000 6000 (λ _, false) []) s
    = Raised ProcessKilled ∧
  reaches between_checks s' s'' ∧
  12000 - 6000 > five_seconds ∧
  outcome (check_workers 12000 12000 12000 (λ _, true) []) s''
  = Raised ProcessKilled.
Proof.
  intros s s' s''.
  assert (H1 : outcome (check_workers 6000 6000 6000 (λ _, false) []) s
               = Raised ProcessKilled) by (vm_compute; reflexivity).
  assert (Hr : reaches between_checks s' s'').
  { subst s''. apply reaches_call; [|exact I].
    apply reaches_call; [|exact I]. apply reaches_here. }
  assert (H2 : 12000 - 6000 > five_seconds) by (vm_compute; reflexivity).
  split; [exact H1|]. split; [exact Hr|]. split; [exact H2|].
  exact (process_killed_persists 6000 6000 6000 (λ _, false) [] s H1
           s'' Hr 12000 12000 12000 (λ _, true) [] H2).
Defined.

Lemma fresh_worker_running : Worker.running fresh_worker.
Proof. exists O, 4000. apply Worker.evolves_here. Qed.

Lemma process_job_keeps_level_witness :
  Worker.running fresh_worker ∧
  ∃ b st', WorkerLoop._process_job numbered waiting_step (fresh_worker, [])
           = (WorkerLoop.Returned b, st') ∧
    Worker._stack_idx st'.1 = Worker._stack_idx fresh_worker.
Proof.
  split; [exact fresh_worker_running|].
  destruct (WorkerLoopFacts.process_job_keeps_level numbered waiting_step
              fresh_worker [] fresh_worker_running)
    as (b & st' & E & _ & Hi & _).
  exists b, st'. split; [exact E|exact Hi].
Defined.

Lemma process_job_sockets_witness :
  Worker.running fresh_worker ∧
  length (Worker._master_sockets
            (WorkerLoop._process_job numbered waiting_step
               (fresh_worker, [])).2.1)
  = (length (Worker._master_sockets fresh_worker)
     `max` (Z.to_nat (Worker._stack_idx fresh_worker) + 1
            + WorkerLoop.depth waiting_step))%nat.
Proof.
  split; [exact fresh_worker_running|].
  exact (proj1 (WorkerLoopFacts.process_job_sockets numbered waiting_step
                  fresh_worker [] fresh_worker_running)).
Defined.

Lemma process_job_announces_witness :
  Worker.running fresh_worker ∧
  NoDup (Worker._master_ports
           (WorkerLoop._process_job numbered waiting_step
              (fresh_worker, [])).2.1) ∧
  ∃ port rest, Worker.active_port fresh_worker = Some port ∧
    (WorkerLoop._process_job numbered waiting_step (fresh_worker, [])).2.2
    = [] ++ WorkerLoop.Announce port :: rest ∧
    Forall (λ e, e ≠ WorkerLoop.Announce port) rest.
Proof.
  assert (Hnd : NoDup (Worker._master_ports
                  (WorkerLoop._process_job numbered waiting_step
                     (fresh_worker, [])).2.1)).
  { assert (E : Worker._master_ports
                  (WorkerLoop._process_job numbered waiting_step
                     (fresh_worker, [])).2.1 = [4000; 4001])
      by (vm_compute; reflexivity).
    rewrite E. apply NoDup_cons. split; [|apply NoDup_singleton].
    intros Hin. apply list_elem_of_singleton in Hin. discriminate Hin. }
  split; [exact fresh_worker_running|]. split; [exact Hnd|].
  destruct (WorkerLoopFacts.process_job_announces numbered waiting_step
              fresh_worker [] fresh_worker_running)
    as (port & rest & Ha & Hl & _ & Hno).
  exists port, rest. split; [exact Ha|]. split; [exact Hl|exact (Hno Hnd)].
Defined.

Lemma run_until_sentinel_witness :
  Forall (λ work : WorkerLoop.Work nat, work ≠ WorkerLoop.Sentinel)
    [WorkerLoop.Nothing; waiting_step] ∧
  ∃ w log,
    WorkerLoop.run numbered
      ([WorkerLoop.Nothing; waiting_step]
       ++ WorkerLoop.Sentinel :: [WorkerLoop.Nothing])
    = (WorkerLoop.Returned false,
       (w, log ++ WorkerLoop.Announce (numbered O).2
                    :: (WorkerLoop.Close <$> Worker._master_sockets w))).
Proof.
  assert (H : Forall (λ work : WorkerLoop.Work nat,
                        work ≠ WorkerLoop.Sentinel)
                [WorkerLoop.Nothing; waiting_step])
    by (repeat constructor; discriminate).
  split; [exact H|].
  destruct (WorkerLoopFacts.run_until_sentinel numbered
              [WorkerLoop.Nothing; waiting_step] [WorkerLoop.Nothing] H)
    as (w & log & E & _).
  exists w, log. exact E.
Defined.

Lemma pop_env_at_level_0_witness :
  Worker.running fresh_worker ∧ Worker._stack_idx fresh_worker = 0 ∧
  Worker._stack_idx (Worker.pop_env fresh_worker).2 = -1.
Proof.
  split; [exact fresh_worker_running|]. split; [reflexivity|].
  exact (proj1 (proj2 (WorkerLoopFacts.pop_env_at_level_0 fresh_worker
                         fresh_worker_running eq_refl))).
Defined.
